(** * sidekick metrics: per-backend statistics and the Prometheus collector

    A shallow embedding of [metrics.go]: the [ConnStats] record and its
    setters and getters, the bucket classifier [getBucketFromPath], and the
    [Collect] method of [sidekickCollector], together with the properties
    the specification states about them.

    Conventions of the embedding:
    - Go's [uint64] and [int64] values are integers in [Z]; a conversion
      between them is written out as its wrap-around ([uint64_of]).
    - a Go [string] is a sequence of bytes, here [string] (a list of
      [ascii]); [path[i]] is [index path i], which panics out of range.
    - a panic (nil dereference, index out of range, a [Must...] constructor
      that fails) is the [Panic] result of the [result] monad.
    - the Prometheus client is modelled as far as the code calls it, with
      the panics of those calls: an invalid descriptor, a wrong number of
      label values, a label value that is not valid UTF-8.
    - the atomic cells are read and written one at a time by sequential
      code, so a cell is the value it holds. *)

From Stdlib Require Import ZArith NArith Lia Ascii String.
From Stdlib Require Import SpecFloat Sorted.
From stdpp Require Import base tactics option list numbers strings gmap.

Local Open Scope Z_scope.

(** ** Panics and results *)

Inductive panic : Set :=
  | NilDereference
  | IndexOutOfRange
  | InvalidDesc
  | InconsistentCardinality
  | InvalidLabelValue
  | OutOfFuel.

Inductive result (A : Type) : Type :=
  | Ok (a : A)
  | Panic (p : panic).

Arguments Ok {A} a.
Arguments Panic {A} p.

#[global] Instance result_ret : MRet result := fun _ a => Ok a.
#[global] Instance result_bind : MBind result := fun _ _ f r =>
  match r with
  | Ok a => f a
  | Panic p => Panic p
  end.

(** ** Strings as byte sequences *)

Module GoString.

Definition len (s : string) : nat := String.length s.

(** [s[i]]: the byte at index [i]; a run-time panic out of range. *)
Definition index (s : string) (i : nat) : result ascii :=
  match String.get i s with
  | Some c => Ok c
  | None => Panic IndexOutOfRange
  end.

(** [strings.Builder.WriteByte]: append one byte to the builder. *)
Definition WriteByte (sb : string) (c : ascii) : string :=
  String.append sb (String c EmptyString).

End GoString.

(** ** The bucket classifier *)

Definition slash : ascii := "/"%char.

Definition is_slash (c : ascii) : bool := Ascii.eqb c slash.

(** The first loop of [getBucketFromPath]:
    [for i < len(path) && path[i] == '/' { i++ }]. *)
Fixpoint skipSlashes (fuel : nat) (path : string) (i : nat) : result nat :=
  match fuel with
  | O => Panic OutOfFuel
  | S fuel' =>
      if (i <? GoString.len path)%nat then
        c ← GoString.index path i;
        if is_slash c then skipSlashes fuel' path (i + 1)%nat else Ok i
      else Ok i
  end.

(** The second loop:
    [for ; i < len(path); i++ { if path[i] == '/' { break }; sb.WriteByte(path[i]) }]. *)
Fixpoint copySegment (fuel : nat) (path : string) (i : nat) (sb : string)
  : result string :=
  match fuel with
  | O => Panic OutOfFuel
  | S fuel' =>
      if (i <? GoString.len path)%nat then
        c ← GoString.index path i;
        if is_slash c then Ok sb
        else
          c' ← GoString.index path i;
          copySegment fuel' path (i + 1)%nat (GoString.WriteByte sb c')
      else Ok sb
  end.

(** Each loop runs at most [len(path) + 1] tests of its condition. *)
Definition getBucketFromPath (path : string) : result string :=
  if (GoString.len path =? 0)%nat then Ok EmptyString
  else
    i ← skipSlashes (S (GoString.len path)) path 0%nat;
    copySegment (S (GoString.len path)) path i EmptyString.

(** The classifier as the specification words it: skip the leading
    slashes, then copy up to the next slash or the end. *)
Fixpoint dropLeadingSlashes (s : string) : string :=
  match s with
  | EmptyString => EmptyString
  | String c s' => if is_slash c then dropLeadingSlashes s' else s
  end.

Fixpoint takeUntilSlash (s : string) : string :=
  match s with
  | EmptyString => EmptyString
  | String c s' => if is_slash c then EmptyString else String c (takeUntilSlash s')
  end.

Definition bucketFromPath (path : string) : string :=
  takeUntilSlash (dropLeadingSlashes path).

(** What is left of the path after the bucket. *)
Fixpoint dropUntilSlash (s : string) : string :=
  match s with
  | EmptyString => EmptyString
  | String c s' => if is_slash c then s else dropUntilSlash s'
  end.

Fixpoint leadingSlashes (s : string) : nat :=
  match s with
  | EmptyString => O
  | String c s' => if is_slash c then S (leadingSlashes s') else O
  end.

Fixpoint slashes (n : nat) : string :=
  match n with
  | O => EmptyString
  | S n' => String slash (slashes n')
  end.

Fixpoint has_slash (s : string) : bool :=
  match s with
  | EmptyString => false
  | String c s' => is_slash c || has_slash s'
  end.

Definition starts_with_slash (s : string) : bool :=
  match s with
  | EmptyString => false
  | String c _ => is_slash c
  end.

(** [bucket] sits in [path] where the classifier looks for it. *)
Definition bucket_of (path bucket : string) : Prop :=
  ∃ (k : nat) (rest : string),
    path = String.append (slashes k) (String.append bucket rest)
    ∧ starts_with_slash (String.append bucket rest) = false
    ∧ has_slash bucket = false
    ∧ (rest = EmptyString ∨ starts_with_slash rest = true).

(** The suffix of [s] from index [i] on: what the loops have yet to read. *)
Fixpoint suffixFrom (i : nat) (s : string) : string :=
  match i, s with
  | O, _ => s
  | S i', String _ s' => suffixFrom i' s'
  | S _, EmptyString => EmptyString
  end.

(** ** Integers of the Go program *)

(** [uint64(n)] for a signed [n]: the value modulo [2^64]. *)
Definition uint64_of (n : Z) : Z := n mod 2 ^ 64.

Definition is_int64 (n : Z) : Prop := - 2 ^ 63 ≤ n < 2 ^ 63.
Definition is_uint64 (n : Z) : Prop := 0 ≤ n < 2 ^ 64.

(** [float64(v)] for an unsigned [v]: the nearest binary64 number, ties to
    even, as IEEE 754 and the Standard Library's [SpecFloat] define it. *)
Definition float64_of (v : Z) : spec_float := binary_normalize 53 1024 v 0 false.

(** The integer a floating-point number denotes, when it denotes one. *)
Definition float_int (f : spec_float) : option Z :=
  match f with
  | S754_zero _ => Some 0
  | S754_finite s m e =>
      let z := cond_Zopp s (Z.pos m) in
      if 0 <=? e then Some (z * 2 ^ e)
      else if z mod 2 ^ (- e) =? 0 then Some (z / 2 ^ (- e))
      else None
  | S754_infinity _ | S754_nan => None
  end.

(** ** [strconv.Itoa] *)

Definition digitChar (d : Z) : ascii := ascii_of_nat (48 + Z.to_nat d).

(** The digits of [u], most significant first, put in front of [acc]. *)
Fixpoint formatBits (fuel : nat) (u : Z) (acc : string) : string :=
  match fuel with
  | O => acc
  | S fuel' =>
      let acc' := String (digitChar (u mod 10)) acc in
      if u <? 10 then acc' else formatBits fuel' (u / 10) acc'
  end.

(** A 64-bit integer has at most 20 decimal digits. *)
Definition Itoa (i : Z) : string :=
  if i <? 0 then String "-"%char (formatBits 20 (- i) EmptyString)
  else formatBits 20 i EmptyString.

(** Reading a decimal numeral back, for the round trip with [Itoa]. *)
Definition digitVal (c : ascii) : Z := Z.of_nat (nat_of_ascii c) - 48.

Fixpoint parseDigits (a : Z) (s : string) : Z :=
  match s with
  | EmptyString => a
  | String c s' => parseDigits (a * 10 + digitVal c) s'
  end.

Definition Atoi (s : string) : Z :=
  match s with
  | String c s' => if Ascii.eqb c "-"%char then - parseDigits 0 s' else parseDigits 0 s
  | EmptyString => 0
  end.

(** ** [net/http] status codes *)

Definition StatusBadRequest : Z := 400.
Definition StatusNetworkAuthenticationRequired : Z := 511.

Definition errorHTTPStatusCodes : Z :=
  StatusNetworkAuthenticationRequired - StatusBadRequest + 1.

(** ** ConnStats *)

Record ConnStats : Type := mkConnStats {
  endpoint : string;
  totalInputBytes : Z;          (* atomic.Uint64 *)
  totalOutputBytes : Z;         (* atomic.Uint64 *)
  totalCalls : Z;               (* atomic.Uint64 *)
  totalFailedCalls : list Z;    (* [errorHTTPStatusCodes]atomic.Uint64 *)
  minLatency : Z;               (* atomic.Duration *)
  maxLatency : Z                (* atomic.Duration *)
}.

(** What the Go types guarantee of a record. *)
Record ConnStats_ok (s : ConnStats) : Prop := {
  ok_input : is_uint64 (totalInputBytes s);
  ok_output : is_uint64 (totalOutputBytes s);
  ok_calls : is_uint64 (totalCalls s);
  ok_failed_len : Z.of_nat (length (totalFailedCalls s)) = errorHTTPStatusCodes;
  ok_failed : Forall is_uint64 (totalFailedCalls s);
  ok_min : is_int64 (minLatency s);
  ok_max : is_int64 (maxLatency s)
}.

Definition setInputBytes (s : ConnStats) (n : Z) : ConnStats :=
  mkConnStats (endpoint s) (uint64_of n) (totalOutputBytes s) (totalCalls s)
    (totalFailedCalls s) (minLatency s) (maxLatency s).

Definition setOutputBytes (s : ConnStats) (n : Z) : ConnStats :=
  mkConnStats (endpoint s) (totalInputBytes s) (uint64_of n) (totalCalls s)
    (totalFailedCalls s) (minLatency s) (maxLatency s).

Definition getTotalInputBytes (s : ConnStats) : Z := totalInputBytes s.

Definition setTotalCalls (s : ConnStats) (n : Z) : ConnStats :=
  mkConnStats (endpoint s) (totalInputBytes s) (totalOutputBytes s) (uint64_of n)
    (totalFailedCalls s) (minLatency s) (maxLatency s).

(** [for statusCode, value := range n { s.totalFailedCalls[statusCode].Store(uint64(value)) }],
    from index [statusCode] on. Both arrays have [errorHTTPStatusCodes]
    elements by their Go types, so the index is always in range. *)
Fixpoint storeFailures (statusCode : nat) (n : list Z) (cells : list Z) : list Z :=
  match n with
  | [] => cells
  | value :: rest =>
      storeFailures (S statusCode) rest (<[statusCode := uint64_of value]> cells)
  end.

Definition setTotalCallFailures (s : ConnStats) (n : list Z) : ConnStats :=
  mkConnStats (endpoint s) (totalInputBytes s) (totalOutputBytes s) (totalCalls s)
    (storeFailures 0 n (totalFailedCalls s)) (minLatency s) (maxLatency s).

Definition setMinLatency (s : ConnStats) (mn : Z) : ConnStats :=
  mkConnStats (endpoint s) (totalInputBytes s) (totalOutputBytes s) (totalCalls s)
    (totalFailedCalls s) mn (maxLatency s).

Definition setMaxLatency (s : ConnStats) (mx : Z) : ConnStats :=
  mkConnStats (endpoint s) (totalInputBytes s) (totalOutputBytes s) (totalCalls s)
    (totalFailedCalls s) (minLatency s) mx.

Definition getTotalOutputBytes (s : ConnStats) : Z := totalOutputBytes s.

(** [&ConnStats{endpoint: endpoint}]: every other field has its zero value. *)
Definition newConnStats (e : string) : ConnStats :=
  mkConnStats e 0 0 0 (replicate (Z.to_nat errorHTTPStatusCodes) 0) 0 0.

(** ** [unicode/utf8] *)

Module utf8.

Definition RuneSelf : N := 128.
Definition locb : N := 128.
Definition hicb : N := 191.

(** The tables [first] and [acceptRanges]: for a leading byte of 128 or
    more, the size of the encoding and the range its second byte must lie
    in; [None] is the entry [xx] of an invalid leading byte. *)
Definition first (b : N) : option (N * (N * N)) :=
  (if b <? 194 then None
   else if b <? 224 then Some (2, (locb, hicb))
   else if b =? 224 then Some (3, (160, hicb))
   else if b <? 237 then Some (3, (locb, hicb))
   else if b =? 237 then Some (3, (locb, 159))
   else if b <? 240 then Some (3, (locb, hicb))
   else if b =? 240 then Some (4, (144, hicb))
   else if b <? 244 then Some (4, (locb, hicb))
   else if b =? 244 then Some (4, (locb, 143))
   else None)%N.

Definition within (lo hi : N) (c : ascii) : bool :=
  ((lo <=? N_of_ascii c) && (N_of_ascii c <=? hi))%N.

(** [utf8.ValidString]: every byte below [RuneSelf] stands for itself;
    any other must lead an encoding of two to four bytes that is complete,
    has its second byte in the accepted range and continuation bytes
    after it. *)
Fixpoint ValidString (s : string) : bool :=
  match s with
  | EmptyString => true
  | String c0 r0 =>
      if (N_of_ascii c0 <? RuneSelf)%N then ValidString r0
      else
        match first (N_of_ascii c0), r0 with
        | Some (size, (lo, hi)), String c1 r1 =>
            within lo hi c1 &&
            (if (size =? 2)%N then ValidString r1
             else
               match r1 with
               | String c2 r2 =>
                   within locb hicb c2 &&
                   (if (size =? 3)%N then ValidString r2
                    else
                      match r2 with
                      | String c3 r3 => within locb hicb c3 && ValidString r3
                      | EmptyString => false
                      end)
               | EmptyString => false
               end)
        | _, _ => false
        end
  end.

End utf8.

(** Every byte of the string is below [utf8.RuneSelf]. *)
Fixpoint all_ascii (s : string) : bool :=
  match s with
  | EmptyString => true
  | String c r => (N_of_ascii c <? utf8.RuneSelf)%N && all_ascii r
  end.

(** ** The Prometheus client, as far as [Collect] uses it *)

Inductive ValueType : Set := CounterValue | GaugeValue | UntypedValue.

Record Desc : Type := mkDesc {
  fqName : string;
  help : string;
  variableLabels : list string;
  constLabels : list (string * string)
}.

Record Metric : Type := mkMetric {
  desc : Desc;
  valType : ValueType;
  value : spec_float;
  labelValues : list string
}.

Definition is_empty (s : string) : bool :=
  match s with
  | EmptyString => true
  | String _ _ => false
  end.

Definition join3 (a b c : string) : string :=
  String.append a (String.append "_" (String.append b (String.append "_" c))).

Definition join2 (a b : string) : string :=
  String.append a (String.append "_" b).

(** [prometheus.BuildFQName]: the non-empty parts joined by an underscore;
    empty when the name is empty. *)
Definition BuildFQName (namespace subsystem name : string) : string :=
  if is_empty name then EmptyString
  else if negb (is_empty namespace) && negb (is_empty subsystem)
    then join3 namespace subsystem name
  else if negb (is_empty namespace) then join2 namespace name
  else if negb (is_empty subsystem) then join2 subsystem name
  else name.

Definition NewDesc (fq hlp : string) (labels : list string)
  (consts : list (string * string)) : Desc :=
  mkDesc fq hlp labels consts.

(** The client's [validateLabelValues]: the number of values must be the
    expected one, and every value must be valid UTF-8. *)
Definition validateLabelValues (vals : list string) (expected : nat)
  : option panic :=
  if negb (length vals =? expected)%nat then Some InconsistentCardinality
  else if forallb utf8.ValidString vals then None
  else Some InvalidLabelValue.

(** [prometheus.MustNewConstMetric]: it panics when the descriptor is
    invalid (its name must not be empty), when the number of label values
    is not the number of variable labels, and when a label value is not
    valid UTF-8. *)
Definition MustNewConstMetric (d : Desc) (t : ValueType) (v : spec_float)
  (labels : list string) : result Metric :=
  if is_empty (fqName d) then Panic InvalidDesc
  else
    match validateLabelValues labels (length (variableLabels d)) with
    | Some p => Panic p
    | None => Ok (mkMetric d t v labels)
    end.

(** The channel [ch chan<- prometheus.Metric], as the sequence of metrics
    sent on it so far. *)
Abbreviation chan := (list Metric) (only parsing).

Definition send (ch : chan) (m : Metric) : chan := ch ++ [m].

(** The value of label [name] of a metric. *)
Fixpoint lookupLabel (name : string) (names values : list string) : option string :=
  match names, values with
  | n :: names', v :: values' =>
      if String.eqb n name then Some v else lookupLabel name names' values'
  | _, _ => None
  end.

Definition label (name : string) (m : Metric) : option string :=
  lookupLabel name (variableLabels (desc m)) (labelValues m).

(** ** The collector *)

(** An element of [globalConnStats]: a [*ConnStats], possibly nil. *)
Abbreviation ptr := (option ConnStats) (only parsing).

Definition is_nil (c : ptr) : bool :=
  match c with
  | None => true
  | Some _ => false
  end.

(** A field or method of [c], read through the pointer. *)
Definition load {A : Type} (f : ConnStats → A) (c : ptr) : result A :=
  match c with
  | Some s => Ok (f s)
  | None => Panic NilDereference
  end.

(** The endpoint of the record behind [c], if there is one, is valid
    UTF-8. *)
Definition valid_endpointb (c : option ConnStats) : bool :=
  match c with
  | Some s => utf8.ValidString (endpoint s)
  | None => true
  end.

Definition valid_endpoint (c : option ConnStats) : Prop :=
  valid_endpointb c = true.

Definition requestsTotalDesc : Desc :=
  NewDesc (BuildFQName "sidekick" "requests" "total")
    "Total number of calls in current SideKick server instance"
    ["endpoint"%string] [].

Definition errorsTotalDesc : Desc :=
  NewDesc (BuildFQName "sidekick" "errors" "total")
    "Total number of failed calls in current SideKick server instance"
    ["endpoint"%string; "status_code"%string] [].

Definition rxBytesDesc : Desc :=
  NewDesc (BuildFQName "sidekick" "rx" "bytes_total")
    "Total number of bytes received by current SideKick server instance"
    ["endpoint"%string] [].

Definition txBytesDesc : Desc :=
  NewDesc (BuildFQName "sidekick" "tx" "bytes_total")
    "Total number of bytes sent by current SideKick server instance"
    ["endpoint"%string] [].

(** [for statusCode, counter := range c.totalFailedCalls { ... }], from
    index [statusCode] on; [counters] is the array ranged over. *)
Fixpoint rangeFailedCalls (ch : chan) (c : ptr) (statusCode : nat)
  (counters : list Z) : result chan :=
  match counters with
  | [] => Ok ch
  | counter :: rest =>
      let value := counter in
      ch' ← (if 0 <? value then
               ep ← load endpoint c;
               m ← MustNewConstMetric errorsTotalDesc CounterValue
                     (float64_of value)
                     [ep; Itoa (Z.of_nat statusCode + StatusBadRequest)];
               Ok (send ch m)
             else Ok ch);
      rangeFailedCalls ch' c (S statusCode) rest
  end.

(** The body of the loop over [globalConnStats]. *)
Definition collectOne (ch : chan) (c : ptr) : result chan :=
  if is_nil c then Ok ch
  else
    calls ← load totalCalls c;
    ep ← load endpoint c;
    m ← MustNewConstMetric requestsTotalDesc CounterValue (float64_of calls) [ep];
    let ch := send ch m in
    counters ← load totalFailedCalls c;
    ch ← rangeFailedCalls ch c 0 counters;
    rx ← load getTotalInputBytes c;
    ep ← load endpoint c;
    m ← MustNewConstMetric rxBytesDesc CounterValue (float64_of rx) [ep];
    let ch := send ch m in
    tx ← load getTotalOutputBytes c;
    ep ← load endpoint c;
    m ← MustNewConstMetric txBytesDesc CounterValue (float64_of tx) [ep];
    Ok (send ch m).

(** [sidekickCollector.Collect]: [for _, c := range globalConnStats { ... }].
    The loop variable shadows the receiver, which is never read; the global
    registry is passed in. *)
Fixpoint Collect (ch : chan) (globalConnStats : list ptr) : result chan :=
  match globalConnStats with
  | [] => Ok ch
  | c :: rest => ch' ← collectOne ch c; Collect ch' rest
  end.

(** The collector itself, and the [prometheus.Collector] interface it
    implements. *)
Record sidekickCollector : Type := mkSidekickCollector { collectorDesc : Desc }.

Definition newSidekickCollector : sidekickCollector :=
  mkSidekickCollector
    (NewDesc "sidekick_stats" "Statistics exposed by Sidekick loadbalancer" [] []).

(** [Describe]: [ch <- c.desc]. *)
Definition Describe (c : sidekickCollector) (ch : list Desc) : list Desc :=
  ch ++ [collectorDesc c].

Class Collector (C : Type) : Type := {
  describe : C → list Desc → list Desc;
  collect : C → list ptr → chan → result chan
}.

#[global] Instance sidekickCollector_Collector : Collector sidekickCollector := {
  describe := Describe;
  collect := λ _ globalConnStats ch, Collect ch globalConnStats
}.

(** *** The metrics of one record, as a list *)

Definition requestsMetric (s : ConnStats) : Metric :=
  mkMetric requestsTotalDesc CounterValue (float64_of (totalCalls s)) [endpoint s].

Definition errorsMetric (ep : string) (statusCode : nat) (v : Z) : Metric :=
  mkMetric errorsTotalDesc CounterValue (float64_of v)
    [ep; Itoa (Z.of_nat statusCode + StatusBadRequest)].

Definition rxMetric (s : ConnStats) : Metric :=
  mkMetric rxBytesDesc CounterValue (float64_of (totalInputBytes s)) [endpoint s].

Definition txMetric (s : ConnStats) : Metric :=
  mkMetric txBytesDesc CounterValue (float64_of (totalOutputBytes s)) [endpoint s].

Fixpoint errorsMetrics (ep : string) (statusCode : nat) (counters : list Z)
  : list Metric :=
  match counters with
  | [] => []
  | v :: rest =>
      (if 0 <? v then [errorsMetric ep statusCode v] else [])
        ++ errorsMetrics ep (S statusCode) rest
  end.

Definition metricsOf (s : ConnStats) : list Metric :=
  requestsMetric s
    :: errorsMetrics (endpoint s) 0 (totalFailedCalls s)
    ++ [rxMetric s; txMetric s].

Definition metricsOfPtr (c : ptr) : list Metric :=
  match c with
  | Some s => metricsOf s
  | None => []
  end.

(** A failure metric carrying the given status code. *)
Definition is_failure (m : Metric) : Prop :=
  fqName (desc m) = "sidekick_errors_total"%string.

Definition failure_with_code (code : string) (m : Metric) : Prop :=
  is_failure m ∧ label "status_code" m = Some code.

#[global] Instance is_failure_dec m : Decision (is_failure m).
Proof. unfold is_failure. apply _. Defined.

#[global] Instance failure_with_code_dec code m : Decision (failure_with_code code m).
Proof. unfold failure_with_code. apply _. Defined.

Definition is_requests (m : Metric) : Prop :=
  fqName (desc m) = "sidekick_requests_total"%string.

#[global] Instance is_requests_dec m : Decision (is_requests m).
Proof. unfold is_requests. apply _. Defined.

(** ** Sample records *)

(** A record whose every failure slot holds 5. *)
Definition statsAllFive : ConnStats :=
  setTotalCallFailures (newConnStats "10.0.0.1:9000") (replicate 112 5).

(** The counts -3, -2, ..., 108. *)
Definition countsFromMinusThree : list Z :=
  (λ i : nat, Z.of_nat i - 3) <$> seq 0 112.

(** A record with 7 failures of status 404 and none else. *)
Definition statsSeven404 : ConnStats :=
  setTotalCallFailures (newConnStats "10.0.0.1:9000")
    (<[4%nat := 7]> (replicate 112 0)).

(** A record with [2^53 + 1] failures of status 400. *)
Definition statsHuge400 : ConnStats :=
  setTotalCallFailures (newConnStats "10.0.0.1:9000")
    (<[0%nat := 2 ^ 53 + 1]> (replicate 112 0)).

(** A record with a minimum latency of 5 and a maximum of 50. *)
Definition statsLatency : ConnStats :=
  setMaxLatency (setMinLatency (newConnStats "10.0.0.1:9000") 5) 50.

(** ** Sequences of setter calls *)

(** One call of a setter of [ConnStats], with its argument. *)
Inductive setter : Type :=
  | SetInputBytes (n : Z)
  | SetOutputBytes (n : Z)
  | SetTotalCalls (n : Z)
  | SetTotalCallFailures (n : list Z)
  | SetMinLatency (mn : Z)
  | SetMaxLatency (mx : Z).

Definition call (s : ConnStats) (op : setter) : ConnStats :=
  match op with
  | SetInputBytes n => setInputBytes s n
  | SetOutputBytes n => setOutputBytes s n
  | SetTotalCalls n => setTotalCalls s n
  | SetTotalCallFailures n => setTotalCallFailures s n
  | SetMinLatency mn => setMinLatency s mn
  | SetMaxLatency mx => setMaxLatency s mx
  end.

Definition calls (s : ConnStats) (ops : list setter) : ConnStats :=
  fold_left call ops s.

(** The argument has the Go type of the setter's parameter. *)
Definition well_typed (op : setter) : Prop :=
  match op with
  | SetInputBytes n | SetOutputBytes n | SetTotalCalls n => is_int64 n
  | SetTotalCallFailures n =>
      Z.of_nat (length n) = errorHTTPStatusCodes ∧ Forall is_int64 n
  | SetMinLatency d | SetMaxLatency d => is_int64 d
  end.

(** The field a setter writes. *)
Inductive field : Set :=
  | FInputBytes | FOutputBytes | FCalls | FFailedCalls | FMinLatency | FMaxLatency.

Definition target (op : setter) : field :=
  match op with
  | SetInputBytes _ => FInputBytes
  | SetOutputBytes _ => FOutputBytes
  | SetTotalCalls _ => FCalls
  | SetTotalCallFailures _ => FFailedCalls
  | SetMinLatency _ => FMinLatency
  | SetMaxLatency _ => FMaxLatency
  end.

(** ** Reading the output of [Collect] *)

Definition has_name (name : string) (m : Metric) : Prop :=
  fqName (desc m) = name.

#[global] Instance has_name_dec name m : Decision (has_name name m).
Proof. unfold has_name. apply _. Defined.

(** The status codes of the failure metrics of an output, in order. *)
Definition failureCodes (out : list Metric) : list Z :=
  omap (λ m, if decide (is_failure m)
             then Atoi <$> label "status_code" m
             else None) out.

(** The number of failure slots of a record that [Collect] exports. *)
Definition exportedSlots (s : ConnStats) : nat :=
  length (filter (λ v, 0 < v) (totalFailedCalls s)).

Definition metricCount (c : option ConnStats) : nat :=
  match c with
  | Some s => (3 + exportedSlots s)%nat
  | None => 0%nat
  end.

(** A metric as [Collect] builds them for the records of [reg]. *)
Definition metric_of_registry (reg : list (option ConnStats)) (m : Metric) : Prop :=
  valType m = CounterValue
  ∧ length (labelValues m) = length (variableLabels (desc m))
  ∧ constLabels (desc m) = []
  ∧ fqName (desc m) ∈ ["sidekick_requests_total"; "sidekick_errors_total";
                       "sidekick_rx_bytes_total"; "sidekick_tx_bytes_total"]%string
  ∧ ∃ s, Some s ∈ reg ∧ label "endpoint" m = Some (endpoint s).

(** ** The latency summary *)

(** [prometheus.SummaryVec], as the observations it has been fed: per
    series (the values of its labels), the observed values in order.
    [WithLabelValues] panics when the number of values is not the number
    of label names or when a value is not valid UTF-8, and otherwise gives
    the series, created when new. *)
Record SummaryVec : Type := mkSummaryVec {
  labelNames : list string;
  series : gmap (list string) (list spec_float)
}.

Definition NewSummaryVec (names : list string) : SummaryVec :=
  mkSummaryVec names ∅.

(** The state of [latencyMetric] after [init]. *)
Definition latencyMetric_init : SummaryVec :=
  NewSummaryVec ["endpoint"; "method"; "bucket"]%string.

Definition WithLabelValues (vec : SummaryVec) (lvs : list string)
  : result (SummaryVec * list string) :=
  match validateLabelValues lvs (length (labelNames vec)) with
  | Some p => Panic p
  | None =>
      match series vec !! lvs with
      | Some _ => Ok (vec, lvs)
      | None => Ok (mkSummaryVec (labelNames vec) (<[lvs := []]> (series vec)), lvs)
      end
  end.

Definition Observe (vec : SummaryVec) (key : list string) (v : spec_float)
  : SummaryVec :=
  mkSummaryVec (labelNames vec)
    (<[key := default [] (series vec !! key) ++ [v]]> (series vec)).

(** [setAvgLatency]: the receiver is read only; the global [latencyMetric]
    is passed in and returned. *)
Definition setAvgLatency (latencyMetric : SummaryVec) (s : ConnStats) (mn : Z)
  (method path : string) : result SummaryVec :=
  bucket ← getBucketFromPath path;
  '(vec, key) ← WithLabelValues latencyMetric [endpoint s; method; bucket];
  Ok (Observe vec key (float64_of mn)).

(** [TestConnStats_setAvgLatency], with the three values [rand.Int63()]
    returns. *)
Definition TestConnStats_setAvgLatency (r1 r2 r3 : Z) : result SummaryVec :=
  vec ← setAvgLatency latencyMetric_init (newConnStats "test") r1 "GET" "";
  vec ← setAvgLatency vec (newConnStats "test") r2 "GET" "/";
  setAvgLatency vec (newConnStats "test") r3 "GET" "/core-data/Cheques/dbo__cheques".

(** The observations of a series; none when the series does not exist. *)
Definition observations (vec : SummaryVec) (key : list string) : list spec_float :=
  default [] (series vec !! key).

(** ** Further sample data *)

(** The endpoint "10.0.0.1:9000" followed by the byte 255, which no UTF-8
    encoding contains. *)
Definition badEndpoint : string :=
  String.append "10.0.0.1:9000" (String (ascii_of_N 255) EmptyString).

(** A record with that endpoint and 7 failures of status 404. *)
Definition statsBad404 : ConnStats :=
  setTotalCallFailures (newConnStats badEndpoint)
    (<[4%nat := 7]> (replicate 112 0)).

(** The path "/", the byte 255, "/x": the request path of [/%FF/x]. *)
Definition badPath : string :=
  String "/" (String (ascii_of_N 255) "/x").


Definition opsSample : list setter :=
  [SetInputBytes (-1); SetTotalCallFailures countsFromMinusThree;
   SetMinLatency 5; SetOutputBytes 7; SetMaxLatency (-2); SetTotalCalls 3].


(** * Properties *)

(** ** The result monad *)

Lemma bind_Ok {A B} (f : A → result B) (a : A) : (Ok a ≫= f) = f a.
Proof. reflexivity. Qed.

Lemma bind_inv_Ok {A B} (f : A → result B) (r : result A) (b : B) :
  r ≫= f = Ok b → ∃ a, r = Ok a ∧ f a = Ok b.
Proof. destruct r as [a|p]; [eauto | discriminate]. Qed.

(** ** Strings *)

Section string_facts.

Implicit Types (s t : string) (c : ascii) (i : nat).

Lemma append_cons c s t : String.append (String c s) t = String c (String.append s t).
Proof. reflexivity. Qed.

Lemma append_nil_l t : String.append EmptyString t = t.
Proof. reflexivity. Qed.

Lemma append_assoc s t (u : string) :
  String.append (String.append s t) u = String.append s (String.append t u).
Proof.
  induction s as [|x s IH]; [done|]. by rewrite !append_cons, IH.
Qed.

Lemma append_nil_r s : String.append s EmptyString = s.
Proof. induction s as [|x s IH]; [done|]. by rewrite append_cons, IH. Qed.

Lemma WriteByte_append s c t :
  String.append (GoString.WriteByte s c) t = String.append s (String c t).
Proof. unfold GoString.WriteByte. by rewrite append_assoc. Qed.

Lemma index_suffix s i :
  GoString.index s i =
    match suffixFrom i s with
    | String c _ => Ok c
    | EmptyString => Panic IndexOutOfRange
    end.
Proof.
  unfold GoString.index. revert i.
  induction s as [|a s IH]; intros [|i]; simpl; first [done | apply IH].
Qed.

Lemma in_range_suffix s i :
  (i <? GoString.len s)%nat = negb (is_empty (suffixFrom i s)).
Proof.
  unfold GoString.len. revert i.
  induction s as [|a s IH]; intros [|i]; simpl; first [done | apply IH].
Qed.

Lemma suffix_step s i c t :
  suffixFrom i s = String c t → suffixFrom (i + 1) s = t.
Proof.
  revert i. induction s as [|a s IH]; intros [|i]; simpl; try done.
  - by intros [= _ ->].
  - apply IH.
Qed.

Lemma suffix_length s i : (String.length (suffixFrom i s) ≤ String.length s)%nat.
Proof.
  revert i. induction s as [|a s IH]; intros [|i]; simpl; try lia.
  specialize (IH i). lia.
Qed.

Lemma leadingSlashes_length s : (leadingSlashes s ≤ String.length s)%nat.
Proof. induction s as [|a s IH]; simpl; [lia|]. destruct (is_slash a); lia. Qed.

Lemma takeUntilSlash_length s :
  (String.length (takeUntilSlash s) ≤ String.length s)%nat.
Proof.
  induction s as [|a s IH]; simpl; [lia|]. destruct (is_slash a); simpl; lia.
Qed.

Lemma suffix_leadingSlashes s i :
  suffixFrom (i + leadingSlashes (suffixFrom i s)) s
  = dropLeadingSlashes (suffixFrom i s).
Proof.
  remember (String.length (suffixFrom i s)) as n eqn:Hn.
  revert i Hn. induction n as [|n IH]; intros i Hn.
  - destruct (suffixFrom i s) eqn:E; [|done]. simpl. by rewrite Nat.add_0_r.
  - destruct (suffixFrom i s) as [|c t] eqn:E; [done|]. simpl.
    destruct (is_slash c) eqn:Hc.
    + pose proof (suffix_step _ _ _ _ E) as E1.
      replace (i + S (leadingSlashes t))%nat
        with ((i + 1) + leadingSlashes t)%nat by lia.
      rewrite <- E1. apply IH. rewrite E1. simpl in Hn. lia.
    + by rewrite Nat.add_0_r.
Qed.

End string_facts.

(** ** The loops of [getBucketFromPath] *)

Lemma skipSlashes_spec path fuel i :
  (leadingSlashes (suffixFrom i path) < fuel)%nat →
  skipSlashes fuel path i = Ok (i + leadingSlashes (suffixFrom i path))%nat.
Proof.
  revert i. induction fuel as [|fuel IH]; intros i Hfuel; [lia|].
  simpl. rewrite in_range_suffix, index_suffix.
  destruct (suffixFrom i path) as [|c t] eqn:E; simpl.
  - by rewrite Nat.add_0_r.
  - simpl in Hfuel. destruct (is_slash c) eqn:Hc.
    + pose proof (suffix_step _ _ _ _ E) as E1.
      rewrite IH; rewrite E1; [f_equal; lia | lia].
    + by rewrite Nat.add_0_r.
Qed.

Lemma copySegment_spec path fuel i sb :
  (String.length (takeUntilSlash (suffixFrom i path)) < fuel)%nat →
  copySegment fuel path i sb
  = Ok (String.append sb (takeUntilSlash (suffixFrom i path))).
Proof.
  revert i sb. induction fuel as [|fuel IH]; intros i sb Hfuel; [lia|].
  simpl. rewrite in_range_suffix, index_suffix.
  destruct (suffixFrom i path) as [|c t] eqn:E; simpl.
  - by rewrite append_nil_r.
  - simpl in Hfuel. destruct (is_slash c) eqn:Hc; simpl.
    + by rewrite append_nil_r.
    + pose proof (suffix_step _ _ _ _ E) as E1.
      simpl in Hfuel. rewrite IH; rewrite E1; [|lia].
      by rewrite WriteByte_append.
Qed.

Lemma getBucketFromPath_refines path :
  getBucketFromPath path = Ok (bucketFromPath path).
Proof.
  unfold getBucketFromPath, bucketFromPath.
  destruct (Nat.eqb_spec (GoString.len path) 0) as [H0|H0].
  - destruct path; [done | discriminate].
  - pose proof (leadingSlashes_length path) as Hl.
    rewrite (skipSlashes_spec path _ 0) by (simpl; unfold GoString.len; lia).
    rewrite bind_Ok. simpl suffixFrom at 1.
    pose proof (suffix_leadingSlashes path 0) as Hs. simpl in Hs.
    rewrite copySegment_spec; simpl (0 + _)%nat; rewrite Hs; [done|].
    pose proof (takeUntilSlash_length (dropLeadingSlashes path)).
    assert (String.length (dropLeadingSlashes path) ≤ String.length path)%nat.
    { rewrite <- Hs. apply suffix_length. }
    unfold GoString.len. lia.
Qed.

(** ** The shape of a path around its bucket *)

Lemma leading_decompose s :
  s = String.append (slashes (leadingSlashes s)) (dropLeadingSlashes s).
Proof.
  induction s as [|c s IH]; [done|]. simpl.
  destruct (is_slash c) eqn:Hc; [|done].
  simpl. rewrite append_cons. rewrite <- IH.
  unfold is_slash in Hc. apply Ascii.eqb_eq in Hc. by subst.
Qed.

Lemma dropLeadingSlashes_start s : starts_with_slash (dropLeadingSlashes s) = false.
Proof.
  induction s as [|c s IH]; [done|]. simpl.
  destruct (is_slash c) eqn:Hc; [done|]. simpl. done.
Qed.

Lemma segment_decompose s :
  s = String.append (takeUntilSlash s) (dropUntilSlash s).
Proof.
  induction s as [|c s IH]; [done|]. simpl.
  destruct (is_slash c); [done|]. by rewrite append_cons, <- IH.
Qed.

Lemma takeUntilSlash_no_slash s : has_slash (takeUntilSlash s) = false.
Proof.
  induction s as [|c s IH]; [done|]. simpl.
  destruct (is_slash c) eqn:Hc; [done|]. simpl. by rewrite Hc.
Qed.

Lemma dropUntilSlash_start s :
  dropUntilSlash s = EmptyString ∨ starts_with_slash (dropUntilSlash s) = true.
Proof.
  induction s as [|c s IH]; [by left|]. simpl.
  destruct (is_slash c) eqn:Hc; [right; by simpl | done].
Qed.

Lemma dropLeadingSlashes_slashes k s :
  starts_with_slash s = false →
  dropLeadingSlashes (String.append (slashes k) s) = s.
Proof.
  intros Hs. induction k as [|k IH]; simpl.
  - rewrite append_nil_l. destruct s as [|c s]; [done|].
    simpl in *. by rewrite Hs.
  - exact IH.
Qed.

Lemma takeUntilSlash_app b r :
  has_slash b = false →
  r = EmptyString ∨ starts_with_slash r = true →
  takeUntilSlash (String.append b r) = b.
Proof.
  intros Hb Hr. induction b as [|c b IH].
  - rewrite append_nil_l. destruct Hr as [->|Hr]; [done|].
    destruct r as [|c r]; [done|]. simpl in *. by rewrite Hr.
  - rewrite append_cons. simpl in *.
    apply orb_false_iff in Hb as [Hc Hb]. rewrite Hc. by rewrite IH.
Qed.

Lemma bucketFromPath_bucket_of path : bucket_of path (bucketFromPath path).
Proof.
  exists (leadingSlashes path), (dropUntilSlash (dropLeadingSlashes path)).
  unfold bucketFromPath. rewrite <- segment_decompose.
  split_and!.
  - apply leading_decompose.
  - apply dropLeadingSlashes_start.
  - apply takeUntilSlash_no_slash.
  - apply dropUntilSlash_start.
Qed.

Lemma bucket_of_unique path b : bucket_of path b → b = bucketFromPath path.
Proof.
  intros (k & r & -> & Hstart & Hb & Hr). unfold bucketFromPath.
  rewrite dropLeadingSlashes_slashes by done.
  by rewrite takeUntilSlash_app.
Qed.

(** C1. For every path, [getBucketFromPath] returns, without a panic, the
    segment obtained by skipping all leading slashes and then copying bytes
    up to, and without, the next slash or the end of the path: the path is
    some slashes, then the bucket (free of slashes, and not preceded by a
    further slash), then nothing or a rest that begins with a slash, and the
    bucket is the only string in that position. In particular the empty
    path and the path of one slash give the empty bucket,
    "/core-data/Cheques/dbo__cheques" gives "core-data" and
    "noleadingslash/x" gives "noleadingslash". *)
Theorem getBucketFromPath_correct :
  (∀ path : string,
     getBucketFromPath path = Ok (bucketFromPath path)
     ∧ bucket_of path (bucketFromPath path)
     ∧ (∀ b, bucket_of path b → getBucketFromPath path = Ok b))
  ∧ getBucketFromPath "" = Ok ""%string
  ∧ getBucketFromPath "/" = Ok ""%string
  ∧ getBucketFromPath "/core-data/Cheques/dbo__cheques" = Ok "core-data"%string
  ∧ getBucketFromPath "noleadingslash/x" = Ok "noleadingslash"%string.
Proof.
  split; [|by vm_compute].
  intros path. split_and!.
  - apply getBucketFromPath_refines.
  - apply bucketFromPath_bucket_of.
  - intros b Hb. rewrite (bucket_of_unique _ _ Hb).
    apply getBucketFromPath_refines.
Qed.

(** ** Integer conversions *)

Lemma uint64_of_range n : is_uint64 (uint64_of n).
Proof. unfold is_uint64, uint64_of. apply Z.mod_pos_bound. lia. Qed.

Lemma uint64_of_nonneg n : 0 ≤ n → is_int64 n → uint64_of n = n.
Proof. unfold is_int64, uint64_of. intros ? ?. apply Z.mod_small. lia. Qed.

Lemma uint64_of_neg n : n < 0 → is_int64 n → uint64_of n = n + 2 ^ 64.
Proof.
  unfold is_int64, uint64_of. intros ? ?.
  symmetry. apply (Z.mod_unique_pos _ _ (-1)); lia.
Qed.

(** ** The failure array *)

Lemma storeFailures_length k n cells :
  length (storeFailures k n cells) = length cells.
Proof.
  revert k cells. induction n as [|v n IH]; intros k cells; simpl; [done|].
  by rewrite IH, length_insert.
Qed.

Lemma storeFailures_lookup_lt k n cells (j : nat) :
  (j < k)%nat → storeFailures k n cells !! j = cells !! j.
Proof.
  revert k cells. induction n as [|v n IH]; intros k cells Hj; simpl; [done|].
  rewrite IH by lia. apply list_lookup_insert_ne. lia.
Qed.

Lemma storeFailures_lookup k n cells (i : nat) c :
  n !! i = Some c → (k + i < length cells)%nat →
  storeFailures k n cells !! (k + i)%nat = Some (uint64_of c).
Proof.
  revert k cells i. induction n as [|v n IH]; intros k cells i Hi Hlen; [done|].
  simpl. destruct i as [|i]; simpl in Hi.
  - injection Hi as ->. rewrite Nat.add_0_r in *.
    rewrite storeFailures_lookup_lt by lia.
    by apply list_lookup_insert_eq.
  - replace (k + S i)%nat with (S k + i)%nat by lia.
    apply IH; [done|]. rewrite length_insert. lia.
Qed.

Lemma storeFailures_all n cells :
  length n = length cells → storeFailures 0 n cells = uint64_of <$> n.
Proof.
  intros Hlen. apply list_eq. intros i.
  rewrite list_lookup_fmap.
  destruct (n !! i) as [c|] eqn:Hi; simpl.
  - apply (storeFailures_lookup 0); [done|].
    apply lookup_lt_Some in Hi. simpl. lia.
  - apply lookup_ge_None in Hi. apply lookup_ge_None.
    rewrite storeFailures_length. lia.
Qed.

Lemma errorHTTPStatusCodes_eq : errorHTTPStatusCodes = 112.
Proof. reflexivity. Qed.

(** ** The Go types are kept by every operation *)

Lemma newConnStats_ok e : ConnStats_ok (newConnStats e).
Proof.
  split; unfold newConnStats; cbn [totalInputBytes totalOutputBytes totalCalls
    totalFailedCalls minLatency maxLatency];
    try (unfold is_uint64, is_int64; lia).
  - rewrite length_replicate. by rewrite Z2Nat.id.
  - apply Forall_replicate. unfold is_uint64. lia.
Qed.

Lemma setInputBytes_ok s n : ConnStats_ok s → ConnStats_ok (setInputBytes s n).
Proof. intros []. split; simpl; auto using uint64_of_range. Qed.

Lemma setOutputBytes_ok s n : ConnStats_ok s → ConnStats_ok (setOutputBytes s n).
Proof. intros []. split; simpl; auto using uint64_of_range. Qed.

Lemma setTotalCalls_ok s n : ConnStats_ok s → ConnStats_ok (setTotalCalls s n).
Proof. intros []. split; simpl; auto using uint64_of_range. Qed.

Lemma setTotalCallFailures_ok s n :
  Z.of_nat (length n) = errorHTTPStatusCodes →
  ConnStats_ok s → ConnStats_ok (setTotalCallFailures s n).
Proof.
  intros Hn []. split; simpl; auto.
  - by rewrite storeFailures_length.
  - rewrite storeFailures_all by lia.
    apply Forall_fmap, Forall_forall. intros x _. apply uint64_of_range.
Qed.

Lemma setMinLatency_ok s d : is_int64 d → ConnStats_ok s → ConnStats_ok (setMinLatency s d).
Proof. intros ? []. by split. Qed.

Lemma setMaxLatency_ok s d : is_int64 d → ConnStats_ok s → ConnStats_ok (setMaxLatency s d).
Proof. intros ? []. by split. Qed.

(** ** The setters and getters of ConnStats *)

(** C3. For every non-negative [n] of type [int64] and every record,
    [setInputBytes(n)] followed by [getTotalInputBytes()] returns exactly
    [n], and [setOutputBytes(n)] followed by [getTotalOutputBytes()] returns
    exactly [n], whatever the record held before. *)
Theorem set_get_bytes_roundtrip (s : ConnStats) (n : Z) :
  0 ≤ n → is_int64 n →
  getTotalInputBytes (setInputBytes s n) = n
  ∧ getTotalOutputBytes (setOutputBytes s n) = n.
Proof.
  intros Hn Hi. unfold getTotalInputBytes, getTotalOutputBytes. simpl.
  by rewrite uint64_of_nonneg.
Qed.

Lemma set_get_bytes_roundtrip_witness :
  (0 ≤ 1234567 ∧ is_int64 1234567)
  ∧ getTotalInputBytes (setInputBytes (setInputBytes (newConnStats "10.0.0.1:9000") 99) 1234567)
    = 1234567
  ∧ getTotalOutputBytes (setOutputBytes (setInputBytes (newConnStats "10.0.0.1:9000") 99) 1234567)
    = 1234567.
Proof.
  split; [split; [lia | unfold is_int64; lia]|].
  apply (set_get_bytes_roundtrip
           (setInputBytes (newConnStats "10.0.0.1:9000") 99) 1234567);
    [lia | unfold is_int64; lia].
Defined.

(** C4. For every duration [d] and every record, [setMinLatency(d)] leaves
    [minLatency] equal to [d] and [setMaxLatency(d)] leaves [maxLatency]
    equal to [d]: the stored bound is replaced, not compared with the one
    held before, also when [d] is above the stored minimum or below the
    stored maximum. *)
Theorem setLatency_last_write_wins (s : ConnStats) (d : Z) :
  minLatency (setMinLatency s d) = d
  ∧ maxLatency (setMaxLatency s d) = d
  ∧ (minLatency s < d → minLatency (setMinLatency s d) ≠ Z.min (minLatency s) d)
  ∧ (d < maxLatency s → maxLatency (setMaxLatency s d) ≠ Z.max (maxLatency s) d).
Proof. simpl. split_and!; [done | done | lia | lia]. Qed.

Lemma setLatency_last_write_wins_witness :
  minLatency statsLatency < 10
  ∧ minLatency (setMinLatency statsLatency 10) = 10
  ∧ maxLatency (setMaxLatency statsLatency 10) = 10.
Proof.
  split; [reflexivity|].
  destruct (setLatency_last_write_wins statsLatency 10) as (Hmin & Hmax & _).
  split; [exact Hmin | exact Hmax].
Defined.

(** C7. For every array [counts] of [errorHTTPStatusCodes] = 112 counts,
    after [setTotalCallFailures(counts)] the failure array of the record is
    [counts] converted to unsigned slot by slot: every slot [i] in 0..111
    holds [uint64(counts[i])], whatever the array held before. *)
Theorem setTotalCallFailures_replaces_all (s : ConnStats) (counts : list Z) :
  Z.of_nat (length (totalFailedCalls s)) = errorHTTPStatusCodes →
  Z.of_nat (length counts) = errorHTTPStatusCodes →
  totalFailedCalls (setTotalCallFailures s counts) = uint64_of <$> counts
  ∧ ∀ i : nat, 0 ≤ Z.of_nat i ≤ 111 →
      ∃ c, counts !! i = Some c
           ∧ totalFailedCalls (setTotalCallFailures s counts) !! i
             = Some (uint64_of c).
Proof.
  intros Hs Hc. simpl.
  assert (Heq : storeFailures 0 counts (totalFailedCalls s) = uint64_of <$> counts).
  { apply storeFailures_all. lia. }
  split; [done|]. intros i Hi.
  destruct (lookup_lt_is_Some_2 counts i) as [c Hci].
  { rewrite errorHTTPStatusCodes_eq in Hc. lia. }
  exists c. split; [done|]. rewrite Heq, list_lookup_fmap, Hci. done.
Qed.

Lemma setTotalCallFailures_replaces_all_witness :
  (Z.of_nat (length (totalFailedCalls statsAllFive)) = errorHTTPStatusCodes
   ∧ Z.of_nat (length countsFromMinusThree) = errorHTTPStatusCodes)
  ∧ totalFailedCalls (setTotalCallFailures statsAllFive countsFromMinusThree)
    = uint64_of <$> countsFromMinusThree
  ∧ ∀ i : nat, 0 ≤ Z.of_nat i ≤ 111 →
      ∃ c, countsFromMinusThree !! i = Some c
           ∧ totalFailedCalls (setTotalCallFailures statsAllFive countsFromMinusThree) !! i
             = Some (uint64_of c).
Proof.
  split; [split; reflexivity|].
  apply (setTotalCallFailures_replaces_all statsAllFive countsFromMinusThree);
    reflexivity.
Defined.

(** C8. Every setter changes its own field and nothing else:
    [setInputBytes] only [totalInputBytes], [setOutputBytes] only
    [totalOutputBytes], [setTotalCalls] only [totalCalls],
    [setTotalCallFailures] only the [totalFailedCalls] array,
    [setMinLatency] only [minLatency] and [setMaxLatency] only
    [maxLatency]; the endpoint and every other field stay as they were. *)
Theorem setters_frame (s : ConnStats) (n d : Z) (counts : list Z) :
  (let s' := setInputBytes s n in
   endpoint s' = endpoint s ∧ totalOutputBytes s' = totalOutputBytes s
   ∧ totalCalls s' = totalCalls s ∧ totalFailedCalls s' = totalFailedCalls s
   ∧ minLatency s' = minLatency s ∧ maxLatency s' = maxLatency s)
  ∧ (let s' := setOutputBytes s n in
     endpoint s' = endpoint s ∧ totalInputBytes s' = totalInputBytes s
     ∧ totalCalls s' = totalCalls s ∧ totalFailedCalls s' = totalFailedCalls s
     ∧ minLatency s' = minLatency s ∧ maxLatency s' = maxLatency s)
  ∧ (let s' := setTotalCalls s n in
     endpoint s' = endpoint s ∧ totalInputBytes s' = totalInputBytes s
     ∧ totalOutputBytes s' = totalOutputBytes s
     ∧ totalFailedCalls s' = totalFailedCalls s
     ∧ minLatency s' = minLatency s ∧ maxLatency s' = maxLatency s)
  ∧ (let s' := setTotalCallFailures s counts in
     endpoint s' = endpoint s ∧ totalInputBytes s' = totalInputBytes s
     ∧ totalOutputBytes s' = totalOutputBytes s ∧ totalCalls s' = totalCalls s
     ∧ minLatency s' = minLatency s ∧ maxLatency s' = maxLatency s)
  ∧ (let s' := setMinLatency s d in
     endpoint s' = endpoint s ∧ totalInputBytes s' = totalInputBytes s
     ∧ totalOutputBytes s' = totalOutputBytes s ∧ totalCalls s' = totalCalls s
     ∧ totalFailedCalls s' = totalFailedCalls s ∧ maxLatency s' = maxLatency s)
  ∧ (let s' := setMaxLatency s d in
     endpoint s' = endpoint s ∧ totalInputBytes s' = totalInputBytes s
     ∧ totalOutputBytes s' = totalOutputBytes s ∧ totalCalls s' = totalCalls s
     ∧ totalFailedCalls s' = totalFailedCalls s ∧ minLatency s' = minLatency s).
Proof. by repeat split. Qed.

(** C9. For every endpoint string [e], [newConnStats(e)] is a record whose
    endpoint is [e] and whose counters are all zero: the byte counts, the
    call count, each of the 112 slots of the failure array and both
    latency bounds. *)
Theorem newConnStats_zero (e : string) :
  let s := newConnStats e in
  endpoint s = e
  ∧ totalInputBytes s = 0 ∧ totalOutputBytes s = 0 ∧ totalCalls s = 0
  ∧ Z.of_nat (length (totalFailedCalls s)) = errorHTTPStatusCodes
  ∧ (∀ i : nat, 0 ≤ Z.of_nat i ≤ 111 → totalFailedCalls s !! i = Some 0)
  ∧ Forall (λ v, v = 0) (totalFailedCalls s)
  ∧ minLatency s = 0 ∧ maxLatency s = 0.
Proof.
  unfold newConnStats.
  cbn [endpoint totalInputBytes totalOutputBytes totalCalls totalFailedCalls
       minLatency maxLatency].
  split_and!; try reflexivity.
  - intros i Hi. apply lookup_replicate_2.
    rewrite errorHTTPStatusCodes_eq. lia.
  - by apply Forall_replicate.
Qed.

(** C10. For every [n] of type [int64], negative ones included,
    [setInputBytes(n)], [setOutputBytes(n)] and [setTotalCalls(n)] store [n]
    modulo [2^64], a value of type [uint64], with no validation and no
    error; for a negative [n], [getTotalInputBytes()] then returns
    [n + 2^64], which is not zero. *)
Theorem setters_wrap_negative (s : ConnStats) (n : Z) :
  is_int64 n →
  totalInputBytes (setInputBytes s n) = n mod 2 ^ 64
  ∧ totalOutputBytes (setOutputBytes s n) = n mod 2 ^ 64
  ∧ totalCalls (setTotalCalls s n) = n mod 2 ^ 64
  ∧ is_uint64 (n mod 2 ^ 64)
  ∧ (n < 0 →
     getTotalInputBytes (setInputBytes s n) = n + 2 ^ 64
     ∧ getTotalOutputBytes (setOutputBytes s n) = n + 2 ^ 64
     ∧ totalCalls (setTotalCalls s n) = n + 2 ^ 64
     ∧ n + 2 ^ 64 ≠ 0).
Proof.
  intros Hi. split_and!; try done.
  - apply uint64_of_range.
  - intros Hn. unfold getTotalInputBytes, getTotalOutputBytes. simpl.
    rewrite uint64_of_neg by done. unfold is_int64 in Hi. split_and!; lia.
Qed.

Lemma setters_wrap_negative_witness :
  is_int64 (-1)
  ∧ getTotalInputBytes (setInputBytes (newConnStats "a") (-1)) = 18446744073709551615.
Proof.
  assert (H : is_int64 (-1)) by (unfold is_int64; lia).
  split; [exact H|].
  destruct (setters_wrap_negative (newConnStats "a") (-1) H) as (_ & _ & _ & _ & Hneg).
  destruct Hneg as (Hin & _); [lia|]. exact Hin.
Defined.

(** ** The conversion to [float64] *)

Lemma digits2_pos_bounds p :
  2 ^ (Z.pos (digits2_pos p) - 1) ≤ Z.pos p < 2 ^ Z.pos (digits2_pos p).
Proof.
  induction p as [p IH|p IH|]; simpl digits2_pos.
  - rewrite Pos2Z.inj_succ.
    replace (Z.succ (Z.pos (digits2_pos p)) - 1) with (Z.succ (Z.pos (digits2_pos p) - 1)) by lia.
    rewrite !Z.pow_succ_r by lia. lia.
  - rewrite Pos2Z.inj_succ.
    replace (Z.succ (Z.pos (digits2_pos p)) - 1) with (Z.succ (Z.pos (digits2_pos p) - 1)) by lia.
    rewrite !Z.pow_succ_r by lia. lia.
  - simpl. lia.
Qed.

Lemma digits2_pos_le_53 p : Z.pos p < 2 ^ 53 → Z.pos (digits2_pos p) ≤ 53.
Proof.
  intros Hp. pose proof (digits2_pos_bounds p) as [Hlo _].
  destruct (Z.le_gt_cases (Z.pos (digits2_pos p)) 53) as [|Hgt]; [done|].
  assert (2 ^ 53 ≤ 2 ^ (Z.pos (digits2_pos p) - 1)) by (apply Z.pow_le_mono_r; lia).
  lia.
Qed.

Lemma iter_xO_value p k : Z.pos (Pos.iter xO p k) = Z.pos p * 2 ^ Z.pos k.
Proof.
  induction k as [|k IH] using Pos.peano_ind.
  - simpl. lia.
  - rewrite Pos.iter_succ, Pos2Z.inj_succ, Z.pow_succ_r by lia.
    rewrite Pos2Z.inj_xO, IH. lia.
Qed.

Lemma iter_xO_digits p k :
  Z.pos (digits2_pos (Pos.iter xO p k)) = Z.pos (digits2_pos p) + Z.pos k.
Proof.
  induction k as [|k IH] using Pos.peano_ind.
  - simpl. lia.
  - rewrite Pos.iter_succ. simpl digits2_pos. lia.
Qed.

Lemma binary_round_aux_exact m e :
  Z.pos (digits2_pos m) = 53 → -1074 ≤ e ≤ 971 →
  binary_round_aux 53 1024 false (Z.pos m) e loc_Exact = S754_finite false m e.
Proof.
  intros Hd He. unfold binary_round_aux, shr_fexp, fexp, emin.
  cbn [Zdigits2 shr_record_of_loc]. rewrite Hd.
  replace (Z.max (53 + e - 53) (3 - 1024 - 53) - e) with 0 by lia.
  cbn [shr loc_of_shr_record shr_m round_nearest_even Zdigits2 shr_record_of_loc].
  rewrite Hd.
  replace (Z.max (53 + e - 53) (3 - 1024 - 53) - e) with 0 by lia.
  cbn [shr shr_m].
  destruct (Z.leb_spec e (1024 - 53)); [done | lia].
Qed.

Lemma float64_of_small p :
  Z.pos p < 2 ^ 53 →
  ∃ m, float64_of (Z.pos p)
       = S754_finite false m (Z.pos (digits2_pos p) - 53)
       ∧ Z.pos m = Z.pos p * 2 ^ (53 - Z.pos (digits2_pos p)).
Proof.
  intros Hp. pose proof (digits2_pos_le_53 p Hp) as Hd.
  unfold float64_of, binary_normalize, binary_round, shl_align, fexp, emin.
  replace (Z.max (Z.pos (digits2_pos p) + 0 - 53) (3 - 1024 - 53) - 0)
    with (Z.pos (digits2_pos p) - 53) by lia.
  replace (Z.max (Z.pos (digits2_pos p) + 0 - 53) (3 - 1024 - 53))
    with (Z.pos (digits2_pos p) - 53) by lia.
  destruct (Z.pos (digits2_pos p) - 53) as [|k|k] eqn:Hk.
  - exists p. rewrite binary_round_aux_exact by lia.
    split; [done|]. replace (53 - Z.pos (digits2_pos p)) with 0 by lia. lia.
  - lia.
  - exists (Pos.iter xO p k). rewrite binary_round_aux_exact.
    + split; [done|]. rewrite iter_xO_value. f_equal. f_equal. lia.
    + rewrite iter_xO_digits. lia.
    + lia.
Qed.

Lemma float64_of_exact v : 0 ≤ v ≤ 2 ^ 53 → float_int (float64_of v) = Some v.
Proof.
  intros Hv.
  destruct (Z.eq_dec v (2 ^ 53)) as [->|Hne]; [by vm_compute|].
  destruct v as [|p|p]; [done| |lia].
  destruct (float64_of_small p) as (m & -> & Hm); [lia|].
  pose proof (digits2_pos_le_53 p ltac:(lia)) as Hd.
  unfold float_int. cbn [cond_Zopp]. rewrite Hm.
  destruct (Z.leb_spec 0 (Z.pos (digits2_pos p) - 53)).
  - replace (Z.pos (digits2_pos p) - 53) with 0 by lia.
    replace (53 - Z.pos (digits2_pos p)) with 0 by lia.
    f_equal. lia.
  - replace (- (Z.pos (digits2_pos p) - 53)) with (53 - Z.pos (digits2_pos p)) by lia.
    assert (0 < 2 ^ (53 - Z.pos (digits2_pos p))) by (apply Z.pow_pos_nonneg; lia).
    rewrite Z.mod_mul by lia. simpl. rewrite Z.div_mul by lia. done.
Qed.

Example float64_big : float_int (float64_of (2 ^ 53 + 1)) = Some (2 ^ 53).
Proof. vm_compute. reflexivity. Qed.
Example float64_max : float_int (float64_of (2 ^ 64 - 1)) = Some (2 ^ 64).
Proof. vm_compute. reflexivity. Qed.
Example float64_tie : float_int (float64_of (2 ^ 53 + 3)) = Some (2 ^ 53 + 4).
Proof. vm_compute. reflexivity. Qed.

(** ** [strconv.Itoa] and its round trip *)

Lemma digitVal_digitChar d : 0 ≤ d < 10 → digitVal (digitChar d) = d.
Proof.
  intros Hd. unfold digitVal, digitChar.
  rewrite nat_ascii_embedding by lia. lia.
Qed.

Lemma parseDigits_formatBits fuel u acc :
  0 ≤ u < 10 ^ Z.of_nat fuel →
  parseDigits 0 (formatBits fuel u acc) = parseDigits u acc.
Proof.
  revert u acc. induction fuel as [|fuel IH]; intros u acc Hu.
  - simpl in *. by replace u with 0 by lia.
  - rewrite Nat2Z.inj_succ, Z.pow_succ_r in Hu by lia.
    cbn [formatBits].
    pose proof (Z.mod_pos_bound u 10 ltac:(lia)) as Hmod.
    pose proof (Z.div_mod u 10 ltac:(lia)) as Hdiv.
    destruct (Z.ltb_spec u 10) as [Hlt|Hge].
    + cbn [parseDigits]. rewrite digitVal_digitChar by lia.
      rewrite Z.mod_small by lia. f_equal.
    + rewrite IH.
      * cbn [parseDigits]. rewrite digitVal_digitChar by lia. f_equal. lia.
      * split; [apply Z.div_pos; lia|]. apply Z.div_lt_upper_bound; lia.
Qed.

Lemma formatBits_head fuel u acc :
  ∃ d rest, 0 ≤ d < 10 ∧ formatBits (S fuel) u acc = String (digitChar d) rest.
Proof.
  revert u acc. induction fuel as [|fuel IH]; intros u acc.
  - exists (u mod 10), acc. split; [apply Z.mod_pos_bound; lia|].
    cbn [formatBits]. by destruct (u <? 10).
  - cbn [formatBits]. destruct (u <? 10).
    + exists (u mod 10), acc. split; [apply Z.mod_pos_bound; lia | done].
    + apply (IH (u / 10) (String (digitChar (u mod 10)) acc)).
Qed.

Lemma digitChar_not_minus d : 0 ≤ d < 10 → Ascii.eqb (digitChar d) "-" = false.
Proof.
  intros Hd. apply Ascii.eqb_neq. intros Heq.
  pose proof (digitVal_digitChar d Hd) as Hv. rewrite Heq in Hv.
  vm_compute in Hv. lia.
Qed.

Lemma Atoi_Itoa n : is_int64 n → Atoi (Itoa n) = n.
Proof.
  unfold is_int64. intros Hn. unfold Itoa.
  assert (H20 : 2 ^ 63 < 10 ^ Z.of_nat 20) by (vm_compute; done).
  destruct (Z.ltb_spec n 0) as [Hneg|Hpos].
  - cbn [Atoi]. replace (Ascii.eqb "-" "-") with true by done.
    rewrite parseDigits_formatBits by lia. simpl. lia.
  - destruct (formatBits_head 19 n EmptyString) as (d & rest & Hd & Heq).
    pose proof (parseDigits_formatBits 20 n EmptyString ltac:(lia)) as Hp.
    rewrite Heq in *. cbn [Atoi]. rewrite digitChar_not_minus by done.
    rewrite Hp. done.
Qed.

Lemma Itoa_inj a b : is_int64 a → is_int64 b → Itoa a = Itoa b → a = b.
Proof.
  intros Ha Hb Heq. rewrite <- (Atoi_Itoa a), <- (Atoi_Itoa b) by done.
  by rewrite Heq.
Qed.

Example Itoa_400 : Itoa 400 = "400"%string.
Proof. reflexivity. Qed.

Example Itoa_511 : Itoa (Z.of_nat 111 + StatusBadRequest) = "511"%string.
Proof. reflexivity. Qed.

Example Itoa_min_int64 : Itoa (- 2 ^ 63) = "-9223372036854775808"%string.
Proof. reflexivity. Qed.

(** ** The collector sends the metrics of each record, in order *)

Lemma all_ascii_valid s : all_ascii s = true → utf8.ValidString s = true.
Proof.
  induction s as [|c r IH]; [done|]. cbn [all_ascii utf8.ValidString].
  intros [Hc Hr]%andb_true_iff. rewrite Hc. by apply IH.
Qed.

Lemma digitChar_ascii d :
  0 ≤ d < 10 → (N_of_ascii (digitChar d) <? utf8.RuneSelf)%N = true.
Proof.
  intros Hd. unfold digitChar.
  assert (Hcases : d = 0 ∨ d = 1 ∨ d = 2 ∨ d = 3 ∨ d = 4 ∨ d = 5 ∨ d = 6
                   ∨ d = 7 ∨ d = 8 ∨ d = 9) by lia.
  destruct Hcases as [->|[->|[->|[->|[->|[->|[->|[->|[->| ->]]]]]]]]]; reflexivity.
Qed.

Lemma all_ascii_formatBits fuel u acc :
  all_ascii acc = true → all_ascii (formatBits fuel u acc) = true.
Proof.
  revert u acc. induction fuel as [|fuel IH]; intros u acc Hacc; [done|].
  cbn [formatBits].
  assert (Hacc' : all_ascii (String (digitChar (u mod 10)) acc) = true).
  { cbn [all_ascii]. rewrite digitChar_ascii, Hacc; [done|].
    apply Z.mod_pos_bound. lia. }
  destruct (u <? 10); [done | by apply IH].
Qed.

Lemma Itoa_valid n : utf8.ValidString (Itoa n) = true.
Proof.
  apply all_ascii_valid. unfold Itoa. destruct (n <? 0).
  - cbn [all_ascii]. by rewrite all_ascii_formatBits.
  - by apply all_ascii_formatBits.
Qed.

Lemma MustNewConstMetric_one d t v ep :
  is_empty (fqName d) = false → length (variableLabels d) = 1%nat →
  MustNewConstMetric d t v [ep]
  = if utf8.ValidString ep then Ok (mkMetric d t v [ep])
    else Panic InvalidLabelValue.
Proof.
  intros Hname Hlen. unfold MustNewConstMetric, validateLabelValues.
  rewrite Hname, Hlen. cbn [length Nat.eqb negb forallb].
  by destruct (utf8.ValidString ep).
Qed.

Lemma MustNewConstMetric_errors ep k v :
  MustNewConstMetric errorsTotalDesc CounterValue (float64_of v)
    [ep; Itoa (Z.of_nat k + StatusBadRequest)]
  = if utf8.ValidString ep then Ok (errorsMetric ep k v)
    else Panic InvalidLabelValue.
Proof.
  unfold MustNewConstMetric, validateLabelValues.
  change (is_empty (fqName errorsTotalDesc)) with false.
  change (length (variableLabels errorsTotalDesc)) with 2%nat.
  cbn [length Nat.eqb negb forallb]. rewrite Itoa_valid.
  by destruct (utf8.ValidString ep).
Qed.

Lemma rangeFailedCalls_spec ch s k counters :
  utf8.ValidString (endpoint s) = true →
  rangeFailedCalls ch (Some s) k counters
  = Ok (ch ++ errorsMetrics (endpoint s) k counters).
Proof.
  intros Hvalid. revert ch k. induction counters as [|v rest IH]; intros ch k.
  - simpl. by rewrite app_nil_r.
  - cbn [rangeFailedCalls errorsMetrics]. destruct (0 <? v).
    + cbn [load]. rewrite bind_Ok, MustNewConstMetric_errors, Hvalid.
      rewrite !bind_Ok, IH. unfold send. by rewrite <- app_assoc.
    + rewrite bind_Ok, IH. done.
Qed.

Lemma collectOne_Some ch s :
  utf8.ValidString (endpoint s) = true →
  collectOne ch (Some s) = Ok (ch ++ metricsOf s).
Proof.
  intros Hvalid. unfold collectOne. cbn [is_nil load]. rewrite !bind_Ok.
  rewrite MustNewConstMetric_one, Hvalid by reflexivity.
  rewrite !bind_Ok, rangeFailedCalls_spec, !bind_Ok by done.
  rewrite MustNewConstMetric_one, Hvalid by reflexivity.
  rewrite !bind_Ok.
  rewrite MustNewConstMetric_one, Hvalid by reflexivity.
  rewrite !bind_Ok. unfold send, metricsOf.
  f_equal. rewrite <- !app_assoc. simpl. done.
Qed.

Lemma collectOne_invalid ch s :
  utf8.ValidString (endpoint s) = false →
  collectOne ch (Some s) = Panic InvalidLabelValue.
Proof.
  intros Hvalid. unfold collectOne. cbn [is_nil load]. rewrite !bind_Ok.
  by rewrite MustNewConstMetric_one, Hvalid by reflexivity.
Qed.

Lemma collectOne_nil ch : collectOne ch None = Ok ch.
Proof. reflexivity. Qed.

Lemma collectOne_cases ch c :
  collectOne ch c
  = if valid_endpointb c then Ok (ch ++ metricsOfPtr c)
    else Panic InvalidLabelValue.
Proof.
  destruct c as [s|]; cbn [valid_endpointb metricsOfPtr].
  - destruct (utf8.ValidString (endpoint s)) eqn:Hv.
    + by apply collectOne_Some.
    + by apply collectOne_invalid.
  - rewrite collectOne_nil. by rewrite app_nil_r.
Qed.

Lemma Collect_cases ch reg :
  Collect ch reg
  = if forallb valid_endpointb reg
    then Ok (ch ++ concat (metricsOfPtr <$> reg))
    else Panic InvalidLabelValue.
Proof.
  revert ch. induction reg as [|c reg IH]; intros ch.
  - simpl. by rewrite app_nil_r.
  - cbn [Collect forallb]. rewrite collectOne_cases.
    destruct (valid_endpointb c); [|done].
    rewrite bind_Ok, IH. cbn [andb].
    destruct (forallb valid_endpointb reg); [|done].
    rewrite fmap_cons. cbn [concat]. by rewrite app_assoc.
Qed.

Lemma forallb_valid (reg : list (option ConnStats)) :
  forallb valid_endpointb reg = true ↔ Forall valid_endpoint reg.
Proof.
  unfold valid_endpoint. induction reg as [|c reg IH]; [by split; [constructor|]|].
  cbn [forallb]. rewrite andb_true_iff, Forall_cons, IH. done.
Qed.

Lemma Collect_spec ch reg :
  Forall valid_endpoint reg →
  Collect ch reg = Ok (ch ++ concat (metricsOfPtr <$> reg)).
Proof.
  intros Hreg%forallb_valid. by rewrite Collect_cases, Hreg.
Qed.

Lemma Collect_Ok_inv ch reg out :
  Collect ch reg = Ok out →
  Forall valid_endpoint reg ∧ out = ch ++ concat (metricsOfPtr <$> reg).
Proof.
  rewrite Collect_cases.
  destruct (forallb valid_endpointb reg) eqn:Hreg; [|done].
  intros [= <-]. split; [by apply forallb_valid | done].
Qed.

Lemma Collect_Panic_inv ch reg p :
  Collect ch reg = Panic p →
  p = InvalidLabelValue
  ∧ ∃ s, Some s ∈ reg ∧ utf8.ValidString (endpoint s) = false.
Proof.
  rewrite Collect_cases.
  destruct (forallb valid_endpointb reg) eqn:Hreg; [done|].
  intros [= <-]. split; [done|].
  induction reg as [|c reg IH]; [done|].
  cbn [forallb] in Hreg. apply andb_false_iff in Hreg as [Hc|Hreg].
  - destruct c as [s|]; [|done]. exists s. split; [by left | done].
  - destruct (IH Hreg) as (s & Hs & Hv). exists s. split; [by right | done].
Qed.

Lemma Collect_app ch reg1 reg2 :
  Collect ch (reg1 ++ reg2) = Collect ch reg1 ≫= λ ch', Collect ch' reg2.
Proof.
  revert ch. induction reg1 as [|c reg1 IH]; intros ch; [done|].
  cbn [app Collect]. destruct (collectOne ch c) as [ch'|p]; [|done].
  rewrite !bind_Ok. apply IH.
Qed.

Lemma Collect_at ch (reg : list (option ConnStats)) (k : nat) s :
  reg !! k = Some (Some s) →
  Forall valid_endpoint (take (S k) reg) →
  Collect ch (take k reg) = Ok (ch ++ concat (metricsOfPtr <$> take k reg))
  ∧ Collect ch (take (S k) reg)
    = Ok (ch ++ concat (metricsOfPtr <$> take k reg) ++ metricsOf s)
  ∧ Collect ch reg
    = Collect (ch ++ concat (metricsOfPtr <$> take k reg) ++ metricsOf s)
        (drop (S k) reg).
Proof.
  intros Hk Hvalid.
  rewrite (take_S_r reg k (Some s) Hk) in Hvalid.
  apply Forall_app in Hvalid as [Hbefore Hs].
  apply Forall_cons in Hs as [Hs _].
  assert (Hone : Collect ch (take k reg ++ [Some s])
                 = Ok (ch ++ concat (metricsOfPtr <$> take k reg) ++ metricsOf s)).
  { rewrite Collect_app, Collect_spec, bind_Ok by done.
    cbn [Collect]. rewrite collectOne_Some by done.
    by rewrite bind_Ok, app_assoc. }
  split_and!.
  - by apply Collect_spec.
  - by rewrite (take_S_r reg k (Some s) Hk).
  - rewrite <- (take_drop_middle reg k (Some s) Hk) at 1.
    rewrite (cons_middle (Some s)), app_assoc, Collect_app, Hone.
    by rewrite bind_Ok.
Qed.

Lemma Collect_at_valid ch (reg : list (option ConnStats)) (k : nat) s :
  reg !! k = Some (Some s) →
  Forall valid_endpoint reg →
  Collect [] (drop (S k) reg) = Ok (concat (metricsOfPtr <$> drop (S k) reg))
  ∧ Collect ch reg
    = Ok (ch ++ concat (metricsOfPtr <$> take k reg)
             ++ metricsOf s
             ++ concat (metricsOfPtr <$> drop (S k) reg)).
Proof.
  intros Hk Hvalid. split.
  - rewrite Collect_spec; [done|]. by apply Forall_drop.
  - rewrite Collect_spec by done. do 2 f_equal.
    rewrite <- (take_drop_middle reg k (Some s) Hk) at 1.
    by rewrite fmap_app, concat_app, fmap_cons.
Qed.

(** ** Counting the failure metrics of one status code *)

Lemma failure_with_code_errorsMetric code ep k v :
  failure_with_code code (errorsMetric ep k v)
  ↔ code = Itoa (Z.of_nat k + StatusBadRequest).
Proof.
  unfold failure_with_code, is_failure, label. cbn.
  split; [intros [_ [= <-]]; done | intros ->; done].
Qed.

Lemma not_failure_requestsMetric s : ¬ is_failure (requestsMetric s).
Proof. unfold is_failure. cbn. discriminate. Qed.

Lemma not_failure_rxMetric s : ¬ is_failure (rxMetric s).
Proof. unfold is_failure. cbn. discriminate. Qed.

Lemma not_failure_txMetric s : ¬ is_failure (txMetric s).
Proof. unfold is_failure. cbn. discriminate. Qed.

Lemma is_failure_errorsMetrics ep k counters :
  Forall is_failure (errorsMetrics ep k counters).
Proof.
  revert k. induction counters as [|v rest IH]; intros k; [constructor|].
  cbn [errorsMetrics]. apply Forall_app. split; [|apply IH].
  destruct (0 <? v); repeat constructor.
Qed.

Lemma filter_errorsMetrics_none code ep k counters :
  (∀ j : nat, (j < length counters)%nat →
              code ≠ Itoa (Z.of_nat (k + j) + StatusBadRequest)) →
  filter (failure_with_code code) (errorsMetrics ep k counters) = [].
Proof.
  revert k. induction counters as [|v rest IH]; intros k Hne; [done|].
  cbn [errorsMetrics]. rewrite filter_app, IH.
  - rewrite app_nil_r. destruct (0 <? v); [|done].
    rewrite filter_cons_False; [done|].
    rewrite failure_with_code_errorsMetric.
    specialize (Hne 0%nat ltac:(simpl; lia)). by rewrite Nat.add_0_r in Hne.
  - intros j Hj. specialize (Hne (S j) ltac:(simpl; lia)).
    by replace (S k + j)%nat with (k + S j)%nat by lia.
Qed.

Lemma filter_errorsMetrics_at ep k counters (i : nat) v :
  counters !! i = Some v →
  Z.of_nat (k + length counters) + StatusBadRequest < 2 ^ 63 →
  filter (failure_with_code (Itoa (Z.of_nat (k + i) + StatusBadRequest)))
         (errorsMetrics ep k counters)
  = if 0 <? v then [errorsMetric ep (k + i) v] else [].
Proof.
  assert (Hint : ∀ x : nat,
            Z.of_nat x + StatusBadRequest < 2 ^ 63 →
            is_int64 (Z.of_nat x + StatusBadRequest)).
  { unfold is_int64, StatusBadRequest. lia. }
  revert k i. induction counters as [|c rest IH]; intros k i Hi Hlen; [done|].
  cbn [errorsMetrics length] in *. rewrite filter_app.
  destruct i as [|i]; simpl in Hi.
  - injection Hi as ->. rewrite Nat.add_0_r.
    rewrite filter_errorsMetrics_none.
    + rewrite app_nil_r. destruct (0 <? v); [|done].
      rewrite filter_cons_True, filter_nil; [done|].
      by apply failure_with_code_errorsMetric.
    + intros j Hj Heq. apply Itoa_inj in Heq; [lia | |]; apply Hint; lia.
  - pose proof (lookup_lt_Some _ _ _ Hi) as Hlt.
    replace (k + S i)%nat with (S k + i)%nat by lia.
    rewrite IH by (done || lia).
    replace (filter _ (if 0 <? c then [errorsMetric ep k c] else [])) with (@nil Metric);
      [done|].
    destruct (0 <? c); [|done].
    rewrite filter_cons_False; [done|].
    rewrite failure_with_code_errorsMetric. intros Heq.
    apply Itoa_inj in Heq; [lia | |]; apply Hint; lia.
Qed.

Lemma filter_metricsOf code s :
  filter (failure_with_code code) (metricsOf s)
  = filter (failure_with_code code) (errorsMetrics (endpoint s) 0 (totalFailedCalls s)).
Proof.
  unfold metricsOf. rewrite filter_cons_False.
  2: { intros [H _]. by apply not_failure_requestsMetric in H. }
  rewrite filter_app.
  rewrite (filter_cons_False _ (rxMetric s)).
  2: { intros [H _]. by apply not_failure_rxMetric in H. }
  rewrite filter_cons_False.
  2: { intros [H _]. by apply not_failure_txMetric in H. }
  by rewrite filter_nil, app_nil_r.
Qed.

Lemma errorsMetrics_zero ep k counters :
  Forall (λ v, v = 0) counters → errorsMetrics ep k counters = [].
Proof.
  intros H. revert k. induction H as [|v rest -> _ IH]; intros k; [done|].
  cbn [errorsMetrics]. by rewrite IH.
Qed.

Lemma filter_requests_metricsOf s :
  filter is_requests (metricsOf s) = [requestsMetric s].
Proof.
  unfold metricsOf. rewrite filter_cons_True by done. f_equal.
  rewrite filter_app.
  replace (filter is_requests [rxMetric s; txMetric s]) with (@nil Metric) by done.
  rewrite app_nil_r.
  pose proof (is_failure_errorsMetrics (endpoint s) 0 (totalFailedCalls s)) as Hf.
  induction Hf as [|m l Hm _ IH]; [done|].
  rewrite filter_cons_False; [done|].
  unfold is_requests, is_failure in *. rewrite Hm. discriminate.
Qed.

Lemma requests_count (reg : list ptr) :
  length (filter is_requests (concat (metricsOfPtr <$> reg)))
  = length (filter (λ c, is_nil c = false) reg).
Proof.
  induction reg as [|c reg IH]; [done|].
  rewrite fmap_cons. cbn [concat]. rewrite filter_app, length_app, IH.
  destruct c as [s|].
  - rewrite (filter_cons_True _ (Some s)) by done.
    cbn [metricsOfPtr]. by rewrite filter_requests_metricsOf.
  - rewrite (filter_cons_False _ (None : ptr)) by done. done.
Qed.

(** ** What [Collect] emits *)

(** C2, as amended. For every record of the registry whose endpoint, like
    the endpoints of the records before it, is valid UTF-8, and every
    status index [i] in 0..111 whose failure counter holds [v]: if
    [v > 0], the record's turn in [Collect] sends exactly one failure
    metric with label [status_code] equal to the decimal string of
    [i + 400]; it is a counter carrying the record's endpoint and the
    value [float64(v)], the binary64 number nearest to [v], which is [v]
    itself whenever [v ≤ 2^53]. If [v = 0], no failure metric with that
    status code is sent for the record. [Collect] then goes on with the
    rest of the registry, and returns normally when all its endpoints are
    valid UTF-8. *)
Theorem Collect_failure_metric (reg : list (option ConnStats)) (k : nat)
  (s : ConnStats) (ch : chan) (i : nat) (v : Z) :
  reg !! k = Some (Some s) →
  Forall valid_endpoint (take (S k) reg) →
  Z.of_nat (length (totalFailedCalls s)) = errorHTTPStatusCodes →
  0 ≤ Z.of_nat i ≤ 111 →
  totalFailedCalls s !! i = Some v →
  ∃ before out code,
    Collect [] (take k reg) = Ok before
    ∧ collectOne [] (Some s) = Ok out
    ∧ Collect ch (take (S k) reg) = Ok (ch ++ before ++ out)
    ∧ Collect ch reg = Collect (ch ++ before ++ out) (drop (S k) reg)
    ∧ (Forall valid_endpoint reg →
       ∃ after, Collect [] (drop (S k) reg) = Ok after
                ∧ Collect ch reg = Ok (ch ++ before ++ out ++ after))
    ∧ code = Itoa (Z.of_nat i + 400)
    ∧ Atoi code = Z.of_nat i + 400
    ∧ (0 < v →
       ∃ m, filter (failure_with_code code) out = [m]
            ∧ label "status_code" m = Some code
            ∧ label "endpoint" m = Some (endpoint s)
            ∧ valType m = CounterValue
            ∧ value m = float64_of v
            ∧ (v ≤ 2 ^ 53 → float_int (value m) = Some v))
    ∧ (v = 0 → filter (failure_with_code code) out = []).
Proof.
  intros Hk Hvalid Hlen Hi Hv.
  exists (concat (metricsOfPtr <$> take k reg)), (metricsOf s),
         (Itoa (Z.of_nat i + 400)).
  rewrite errorHTTPStatusCodes_eq in Hlen.
  assert (Hs : utf8.ValidString (endpoint s) = true).
  { rewrite (take_S_r reg k (Some s) Hk) in Hvalid.
    apply Forall_app in Hvalid as [_ Hs]. by apply Forall_cons in Hs as [Hs _]. }
  assert (Hfilter :
    filter (failure_with_code (Itoa (Z.of_nat i + 400))) (metricsOf s)
    = if 0 <? v then [errorsMetric (endpoint s) i v] else []).
  { rewrite filter_metricsOf.
    apply (filter_errorsMetrics_at (endpoint s) 0 (totalFailedCalls s) i v Hv).
    unfold StatusBadRequest. simpl (0 + _)%nat. lia. }
  destruct (Collect_at ch reg k s Hk Hvalid) as (_ & Hupto & Hrun).
  destruct (Collect_at [] reg k s Hk Hvalid) as (Hbefore & _ & _).
  split_and!.
  - exact Hbefore.
  - by rewrite collectOne_Some.
  - exact Hupto.
  - exact Hrun.
  - intros Hall. destruct (Collect_at_valid ch reg k s Hk Hall) as [Hafter Hfull].
    by exists (concat (metricsOfPtr <$> drop (S k) reg)).
  - done.
  - apply Atoi_Itoa. unfold is_int64. lia.
  - intros Hpos. exists (errorsMetric (endpoint s) i v).
    rewrite Hfilter. destruct (Z.ltb_spec 0 v); [|lia].
    split_and!; try done.
    intros Hsmall. cbn [value errorsMetric]. apply float64_of_exact. lia.
  - intros ->. by rewrite Hfilter.
Qed.

Lemma Collect_failure_metric_witness :
  ([None; Some statsSeven404] !! 1%nat = Some (Some statsSeven404)
   ∧ Forall valid_endpoint (take 2 [None; Some statsSeven404])
   ∧ Z.of_nat (length (totalFailedCalls statsSeven404)) = errorHTTPStatusCodes
   ∧ 0 ≤ Z.of_nat 4 ≤ 111
   ∧ totalFailedCalls statsSeven404 !! 4%nat = Some 7)
  ∧ ∃ out m,
      Collect [] [None; Some statsSeven404] = Ok out
      ∧ filter (failure_with_code "404") out = [m]
      ∧ label "status_code" m = Some "404"%string
      ∧ float_int (value m) = Some 7.
Proof.
  assert (H0 : Forall valid_endpoint (take 2 [None; Some statsSeven404])).
  { apply forallb_valid. reflexivity. }
  assert (H1 : Z.of_nat (length (totalFailedCalls statsSeven404)) = errorHTTPStatusCodes)
    by reflexivity.
  assert (H2 : 0 ≤ Z.of_nat 4 ≤ 111) by lia.
  assert (H3 : totalFailedCalls statsSeven404 !! 4%nat = Some 7) by reflexivity.
  split; [by split_and!|].
  destruct (Collect_failure_metric [None; Some statsSeven404] 1 statsSeven404
              [] 4 7 eq_refl H0 H1 H2 H3)
    as (before & out & code & Hb & _ & Hupto & _ & _ & -> & _ & Hpos & _).
  destruct Hpos as (m & Hm & Hcode & _ & _ & _ & Hval); [lia|].
  assert (before = []) as -> by (injection Hb as <-; reflexivity).
  exists out, m. split_and!; [exact Hupto | exact Hm | exact Hcode | apply Hval; lia].
Defined.

(** C2, as stated, fails twice over. With [2^53 + 1] failures of status
    400 the one failure metric sent for that code has the value [2^53],
    not the counter's value. And for a record whose endpoint is not valid
    UTF-8, [MustNewConstMetric] panics: [Collect] sends no failure metric
    for the 7 failures of status 404. *)
Lemma Collect_failure_metric_value_counterexample :
  (totalFailedCalls statsHuge400 !! 0%nat = Some (2 ^ 53 + 1)
   ∧ 0 < 2 ^ 53 + 1
   ∧ ConnStats_ok statsHuge400
   ∧ ¬ (∃ out m,
          Collect [] [Some statsHuge400] = Ok out
          ∧ filter (failure_with_code (Itoa (Z.of_nat 0 + 400))) out = [m]
          ∧ float_int (value m) = Some (2 ^ 53 + 1))
   ∧ (∃ out m,
        Collect [] [Some statsHuge400] = Ok out
        ∧ filter (failure_with_code (Itoa (Z.of_nat 0 + 400))) out = [m]
        ∧ float_int (value m) = Some (2 ^ 53)))
  ∧ (totalFailedCalls statsBad404 !! 4%nat = Some 7
     ∧ 0 < 7
     ∧ ConnStats_ok statsBad404
     ∧ Collect [] [Some statsBad404] = Panic InvalidLabelValue
     ∧ ¬ (∃ out m,
            Collect [] [Some statsBad404] = Ok out
            ∧ filter (failure_with_code (Itoa (Z.of_nat 4 + 400))) out = [m])).
Proof.
  assert (Hf : filter (failure_with_code (Itoa (Z.of_nat 0 + 400))) (metricsOf statsHuge400)
               = [errorsMetric (endpoint statsHuge400) 0 (2 ^ 53 + 1)]).
  { rewrite filter_metricsOf.
    by rewrite (filter_errorsMetrics_at _ 0 _ 0 (2 ^ 53 + 1)). }
  assert (Hc : Collect [] [Some statsHuge400] = Ok (metricsOf statsHuge400)).
  { rewrite Collect_spec by (apply forallb_valid; reflexivity).
    rewrite fmap_cons. cbn [fmap list_fmap concat metricsOfPtr].
    by rewrite app_nil_l, app_nil_r. }
  assert (Hbad : Collect [] [Some statsBad404] = Panic InvalidLabelValue).
  { by rewrite Collect_cases. }
  split; split_and!.
  - reflexivity.
  - lia.
  - apply setTotalCallFailures_ok; [reflexivity | apply newConnStats_ok].
  - intros (out & m & Hout & Hm & Hval).
    rewrite Hc in Hout.
    assert (out = metricsOf statsHuge400) as -> by congruence.
    rewrite Hf in Hm.
    assert (m = errorsMetric (endpoint statsHuge400) 0 (2 ^ 53 + 1)) as ->
      by congruence.
    vm_compute in Hval. discriminate.
  - exists (metricsOf statsHuge400), (errorsMetric (endpoint statsHuge400) 0 (2 ^ 53 + 1)).
    split_and!; [exact Hc | exact Hf | by vm_compute].
  - reflexivity.
  - lia.
  - apply setTotalCallFailures_ok; [reflexivity | apply newConnStats_ok].
  - exact Hbad.
  - intros (out & m & Hout & _). rewrite Hbad in Hout. discriminate.
Qed.

(** C5, as amended. For every record in the registry whose call and byte
    counters are zero, whose failure array is all zero and whose endpoint,
    like the endpoints of the records before it, is valid UTF-8, [Collect]
    sends, at the record's place in the output, exactly three metrics:
    total calls with value 0, bytes received with value 0 and bytes sent
    with value 0, each a counter carrying the record's endpoint; none is a
    failure metric. [Collect] then goes on with the rest of the registry,
    and returns normally when all its endpoints are valid UTF-8. *)
Theorem Collect_zero_record (reg : list (option ConnStats)) (k : nat) (s : ConnStats) (ch : chan) :
  reg !! k = Some (Some s) →
  Forall valid_endpoint (take (S k) reg) →
  totalCalls s = 0 → totalInputBytes s = 0 → totalOutputBytes s = 0 →
  Forall (λ v, v = 0) (totalFailedCalls s) →
  ∃ before calls rx tx,
    Collect [] (take k reg) = Ok before
    ∧ collectOne [] (Some s) = Ok [calls; rx; tx]
    ∧ Collect ch (take (S k) reg) = Ok (ch ++ before ++ [calls; rx; tx])
    ∧ Collect ch reg
      = Collect (ch ++ before ++ [calls; rx; tx]) (drop (S k) reg)
    ∧ (Forall valid_endpoint reg →
       ∃ after, Collect [] (drop (S k) reg) = Ok after
                ∧ Collect ch reg
                  = Ok (ch ++ before ++ [calls; rx; tx] ++ after))
    ∧ (fqName (desc calls) = "sidekick_requests_total"%string
       ∧ fqName (desc rx) = "sidekick_rx_bytes_total"%string
       ∧ fqName (desc tx) = "sidekick_tx_bytes_total"%string)
    ∧ Forall (λ m, value m = S754_zero false
                   ∧ float_int (value m) = Some 0
                   ∧ valType m = CounterValue
                   ∧ label "endpoint" m = Some (endpoint s)
                   ∧ ¬ is_failure m) [calls; rx; tx].
Proof.
  intros Hk Hvalid Hcalls Hrx Htx Hfailed.
  exists (concat (metricsOfPtr <$> take k reg)),
         (requestsMetric s), (rxMetric s), (txMetric s).
  assert (Hs : metricsOf s = [requestsMetric s; rxMetric s; txMetric s]).
  { unfold metricsOf. by rewrite errorsMetrics_zero. }
  assert (Hv : utf8.ValidString (endpoint s) = true).
  { rewrite (take_S_r reg k (Some s) Hk) in Hvalid.
    apply Forall_app in Hvalid as [_ Hv]. by apply Forall_cons in Hv as [Hv _]. }
  destruct (Collect_at ch reg k s Hk Hvalid) as (_ & Hupto & Hrun).
  destruct (Collect_at [] reg k s Hk Hvalid) as (Hbefore & _ & _).
  rewrite Hs in Hupto, Hrun.
  split_and!.
  - exact Hbefore.
  - by rewrite collectOne_Some, Hs.
  - exact Hupto.
  - exact Hrun.
  - intros Hall. destruct (Collect_at_valid ch reg k s Hk Hall) as [Hafter Hfull].
    exists (concat (metricsOfPtr <$> drop (S k) reg)).
    split; [done|]. by rewrite Hfull, Hs.
  - reflexivity.
  - reflexivity.
  - reflexivity.
  - unfold requestsMetric, rxMetric, txMetric.
    rewrite Hcalls, Hrx, Htx.
    repeat constructor; unfold is_failure; cbn; discriminate.
Qed.

Lemma Collect_zero_record_witness :
  ([None; Some (newConnStats "10.0.0.1:9000"); Some statsSeven404] !! 1%nat
     = Some (Some (newConnStats "10.0.0.1:9000"))
   ∧ Forall valid_endpoint
       (take 2 [None; Some (newConnStats "10.0.0.1:9000"); Some statsSeven404])
   ∧ Forall (λ v, v = 0) (totalFailedCalls (newConnStats "10.0.0.1:9000")))
  ∧ ∃ calls rx tx,
      Collect [] [None; Some (newConnStats "10.0.0.1:9000")]
      = Ok [calls; rx; tx]
      ∧ Forall (λ m, float_int (value m) = Some 0 ∧ ¬ is_failure m) [calls; rx; tx].
Proof.
  assert (Hv : Forall valid_endpoint
            (take 2 [None; Some (newConnStats "10.0.0.1:9000"); Some statsSeven404])).
  { apply forallb_valid. reflexivity. }
  assert (Hz : Forall (λ v, v = 0) (totalFailedCalls (newConnStats "10.0.0.1:9000"))).
  { by apply Forall_replicate. }
  split; [split_and!; [reflexivity | exact Hv | exact Hz]|].
  destruct (Collect_zero_record
              [None; Some (newConnStats "10.0.0.1:9000"); Some statsSeven404]
              1 (newConnStats "10.0.0.1:9000") []
              eq_refl Hv eq_refl eq_refl eq_refl Hz)
    as (before & calls & rx & tx & Hbefore & _ & Hupto & _ & _ & _ & Hms).
  injection Hbefore as <-.
  exists calls, rx, tx. split; [exact Hupto|].
  eapply Forall_impl; [exact Hms|]. intros m (_ & ? & _ & _ & ?). by split.
Defined.

(** C5, as stated, fails: a record that is all zero but whose endpoint is
    not valid UTF-8 makes [MustNewConstMetric] panic, so [Collect] sends
    none of the three base counters for it. *)
Lemma Collect_zero_record_counterexample :
  totalCalls (newConnStats badEndpoint) = 0
  ∧ totalInputBytes (newConnStats badEndpoint) = 0
  ∧ totalOutputBytes (newConnStats badEndpoint) = 0
  ∧ Forall (λ v, v = 0) (totalFailedCalls (newConnStats badEndpoint))
  ∧ utf8.ValidString badEndpoint = false
  ∧ Collect [] [Some (newConnStats badEndpoint)] = Panic InvalidLabelValue
  ∧ ¬ (∃ out, Collect [] [Some (newConnStats badEndpoint)] = Ok out).
Proof.
  assert (Hbad : Collect [] [Some (newConnStats badEndpoint)]
                 = Panic InvalidLabelValue).
  { by rewrite Collect_cases. }
  split_and!;
    [reflexivity | reflexivity | reflexivity | by apply Forall_replicate
    | reflexivity | exact Hbad |].
  intros (out & Hout). rewrite Hbad in Hout. discriminate.
Qed.

(** C6, as amended. [Collect] walks the registry once, in order, and
    skips every nil entry entirely: a nil entry sends nothing and no field
    is read through it, so a nil slot never makes collection fail.
    [Collect] never panics with a nil dereference; its only panic is that
    of [MustNewConstMetric] on a non-nil record whose endpoint is not
    valid UTF-8. It behaves on a registry exactly as on the registry with
    the nil entries removed. When the endpoints of the non-nil entries are
    valid UTF-8 it returns normally, its output is the metrics of each
    non-nil entry in turn, and it holds one total-calls metric per non-nil
    entry. *)
Theorem Collect_skips_nil (reg : list (option ConnStats)) (ch : chan) :
  collectOne ch None = Ok ch
  ∧ Collect ch reg = Collect ch (filter (λ c, is_nil c = false) reg)
  ∧ (∀ reg1 reg2, reg = reg1 ++ None :: reg2 →
                  Collect ch reg = Collect ch (reg1 ++ reg2))
  ∧ Collect ch reg ≠ Panic NilDereference
  ∧ (∀ p, Collect ch reg = Panic p →
          p = InvalidLabelValue
          ∧ ∃ s, Some s ∈ reg ∧ utf8.ValidString (endpoint s) = false)
  ∧ (Forall valid_endpoint reg →
     ∃ out,
       Collect ch reg = Ok (ch ++ out)
       ∧ out = concat ((λ c : option ConnStats,
                          match c with
                          | Some s => metricsOf s
                          | None => []
                          end) <$> reg)
       ∧ length (filter is_requests out)
         = length (filter (λ c, is_nil c = false) reg)).
Proof.
  assert (Hnone : ∀ ch' reg1 reg2,
            Collect ch' (reg1 ++ None :: reg2) = Collect ch' (reg1 ++ reg2)).
  { intros ch' reg1 reg2. rewrite !Collect_app.
    destruct (Collect ch' reg1) as [ch1|p]; [|done]. by rewrite !bind_Ok. }
  split_and!.
  - reflexivity.
  - revert ch. induction reg as [|c reg IH]; intros ch; [done|].
    destruct c as [s|].
    + rewrite (filter_cons_True _ (Some s)) by done.
      cbn [Collect]. destruct (collectOne ch (Some s)) as [ch'|p]; [|done].
      rewrite !bind_Ok. apply IH.
    + rewrite (filter_cons_False _ (None : option ConnStats)) by done.
      apply IH.
  - intros reg1 reg2 ->. apply Hnone.
  - intros Hp. by apply Collect_Panic_inv in Hp as [? _].
  - intros p Hp. by apply Collect_Panic_inv in Hp.
  - intros Hvalid. exists (concat (metricsOfPtr <$> reg)).
    split_and!; [by apply Collect_spec | done | apply requests_count].
Qed.

Lemma Collect_skips_nil_witness :
  Forall valid_endpoint [None; Some statsSeven404; None]
  ∧ Collect [] [None; Some statsSeven404; None] = Collect [] [Some statsSeven404]
  ∧ ∃ out, Collect [] [None; Some statsSeven404; None] = Ok ([] ++ out)
           ∧ length (filter is_requests out) = 1%nat.
Proof.
  assert (Hv : Forall valid_endpoint [None; Some statsSeven404; None]).
  { apply forallb_valid. reflexivity. }
  destruct (Collect_skips_nil [None; Some statsSeven404; None] [])
    as (_ & Hfilter & _ & _ & _ & Hok).
  destruct (Hok Hv) as (out & Hout & _ & Hcount).
  split_and!; [exact Hv | exact Hfilter |].
  exists out. split; [exact Hout | exact Hcount].
Defined.

(** C6, as stated, fails: a registry with a nil slot can still make
    collection fail, when a record of it has an endpoint that is not valid
    UTF-8. *)
Lemma Collect_skips_nil_counterexample :
  utf8.ValidString (endpoint (newConnStats badEndpoint)) = false
  ∧ Collect [] [None; Some (newConnStats badEndpoint)] = Panic InvalidLabelValue
  ∧ ¬ (∃ out, Collect [] [None; Some (newConnStats badEndpoint)] = Ok out).
Proof.
  assert (Hbad : Collect [] [None; Some (newConnStats badEndpoint)]
                 = Panic InvalidLabelValue).
  { by rewrite Collect_cases. }
  split_and!; [reflexivity | exact Hbad |].
  intros (out & Hout). rewrite Hbad in Hout. discriminate.
Qed.

Example Collect_all_nil : Collect [] [None; None; None] = Ok [].
Proof. reflexivity. Qed.

(** * Further properties of the code *)

(** ** More on the bucket classifier *)

Lemma slashes_length k : String.length (slashes k) = k.
Proof. induction k as [|k IH]; simpl; [done | by rewrite IH]. Qed.

Lemma append_length (s t : string) :
  String.length (String.append s t) = (String.length s + String.length t)%nat.
Proof.
  induction s as [|c s IH]; [done|]. rewrite append_cons. simpl. by rewrite IH.
Qed.

Lemma dropLeadingSlashes_slashes_any k s :
  dropLeadingSlashes (String.append (slashes k) s) = dropLeadingSlashes s.
Proof. induction k as [|k IH]; [done | exact IH]. Qed.

Lemma takeUntilSlash_id b : has_slash b = false → takeUntilSlash b = b.
Proof.
  intros Hb. rewrite <- (append_nil_r b) at 1.
  apply takeUntilSlash_app; [done | by left].
Qed.

Lemma no_slash_start b : has_slash b = false → starts_with_slash b = false.
Proof. destruct b as [|c b]; [done|]. simpl. by intros [? _]%orb_false_iff. Qed.

Lemma dropLeadingSlashes_id s : starts_with_slash s = false → dropLeadingSlashes s = s.
Proof. destruct s as [|c s]; [done|]. simpl. by intros ->. Qed.

(** X1. The bucket never contains a slash and is never longer than the
    path it is taken from. *)
Theorem getBucketFromPath_no_slash (path b : string) :
  getBucketFromPath path = Ok b →
  has_slash b = false ∧ (String.length b ≤ String.length path)%nat.
Proof.
  rewrite getBucketFromPath_refines. intros [= <-]. unfold bucketFromPath. split.
  - apply takeUntilSlash_no_slash.
  - pose proof (takeUntilSlash_length (dropLeadingSlashes path)) as H1.
    pose proof (leading_decompose path) as H2.
    apply (f_equal String.length) in H2.
    rewrite append_length, slashes_length in H2. lia.
Qed.

Lemma getBucketFromPath_no_slash_witness :
  getBucketFromPath "//a.b/c/" = Ok "a.b"%string
  ∧ has_slash "a.b" = false ∧ (String.length "a.b" ≤ String.length "//a.b/c/")%nat.
Proof.
  split; [reflexivity|].
  apply (getBucketFromPath_no_slash "//a.b/c/" "a.b"). reflexivity.
Defined.

(** X2. Slashes put in front of a path do not change its bucket. *)
Theorem getBucketFromPath_leading_slashes (k : nat) (path : string) :
  getBucketFromPath (String.append (slashes k) path) = getBucketFromPath path.
Proof.
  rewrite !getBucketFromPath_refines. unfold bucketFromPath.
  by rewrite dropLeadingSlashes_slashes_any.
Qed.

(** X3. A string without a slash is its own bucket; hence the classifier
    is idempotent: the bucket of a bucket is that bucket. *)
Theorem getBucketFromPath_idempotent :
  (∀ b : string, has_slash b = false → getBucketFromPath b = Ok b)
  ∧ (∀ path b : string,
       getBucketFromPath path = Ok b → getBucketFromPath b = Ok b).
Proof.
  assert (H : ∀ b : string, has_slash b = false → getBucketFromPath b = Ok b).
  { intros b Hs. rewrite getBucketFromPath_refines. unfold bucketFromPath.
    rewrite dropLeadingSlashes_id by by apply no_slash_start.
    by rewrite takeUntilSlash_id. }
  split; [exact H|].
  intros path b Hb. apply H.
  rewrite getBucketFromPath_refines in Hb. injection Hb as <-.
  apply takeUntilSlash_no_slash.
Qed.

Lemma getBucketFromPath_idempotent_witness :
  getBucketFromPath "/core-data/Cheques" = Ok "core-data"%string
  ∧ getBucketFromPath "core-data" = Ok "core-data"%string.
Proof.
  split; [reflexivity|].
  destruct getBucketFromPath_idempotent as [_ H].
  apply (H "/core-data/Cheques" "core-data"). reflexivity.
Defined.

(** X4. The bucket is empty exactly when the path consists of slashes
    only (the empty path included). *)
Theorem getBucketFromPath_empty_iff (path : string) :
  getBucketFromPath path = Ok EmptyString ↔ path = slashes (String.length path).
Proof.
  rewrite getBucketFromPath_refines. unfold bucketFromPath. split.
  - intros [= Hb].
    pose proof (dropLeadingSlashes_start path) as Hstart.
    assert (Hd : dropLeadingSlashes path = EmptyString).
    { destruct (dropLeadingSlashes path) as [|c r]; [done|].
      simpl in *. by rewrite Hstart in Hb. }
    pose proof (leading_decompose path) as Hp.
    rewrite Hd, append_nil_r in Hp.
    rewrite Hp at 1. f_equal.
    rewrite Hp at 2. by rewrite slashes_length.
  - intros ->.
    rewrite <- (append_nil_r (slashes _)), dropLeadingSlashes_slashes_any. done.
Qed.

(** X5. Only the first segment counts: after any number of leading
    slashes and a non-empty segment free of slashes, whatever follows the
    next slash does not change the bucket, so all objects of one bucket get
    the same label. *)
Theorem getBucketFromPath_same_bucket (k : nat) (b rest : string) :
  b ≠ EmptyString → has_slash b = false →
  getBucketFromPath
    (String.append (slashes k) (String.append b (String slash rest))) = Ok b.
Proof.
  intros Hne Hb.
  rewrite getBucketFromPath_refines. f_equal. symmetry.
  apply bucket_of_unique. exists k, (String slash rest). split_and!; try done.
  - destruct b as [|c b]; [done|]. rewrite append_cons. simpl in *.
    by apply orb_false_iff in Hb as [? _].
  - by right.
Qed.

Lemma getBucketFromPath_same_bucket_witness :
  ("photos"%string ≠ EmptyString ∧ has_slash "photos" = false)
  ∧ getBucketFromPath "//photos/2020/a.jpg" = Ok "photos"%string.
Proof.
  split; [split; [discriminate | reflexivity]|].
  apply (getBucketFromPath_same_bucket 2 "photos" "2020/a.jpg");
    [discriminate | reflexivity].
Defined.

(** ** Sequences of setter calls *)

Lemma call_ok s op : well_typed op → ConnStats_ok s → ConnStats_ok (call s op).
Proof.
  destruct op; simpl; intros Hop Hs.
  - by apply setInputBytes_ok.
  - by apply setOutputBytes_ok.
  - by apply setTotalCalls_ok.
  - destruct Hop. by apply setTotalCallFailures_ok.
  - by apply setMinLatency_ok.
  - by apply setMaxLatency_ok.
Qed.

Lemma call_endpoint s op : endpoint (call s op) = endpoint s.
Proof. by destruct op. Qed.

(** X6. Every record reached from [newConnStats(e)] by setter calls whose
    arguments have their Go types keeps what the field types promise: the
    unsigned counters are below [2^64], the failure array has 112 slots,
    each below [2^64], and the latencies are 64-bit signed; and its endpoint
    is still [e]. *)
Theorem calls_keep_types (e : string) (ops : list setter) :
  Forall well_typed ops →
  ConnStats_ok (calls (newConnStats e) ops)
  ∧ endpoint (calls (newConnStats e) ops) = e.
Proof.
  intros Hops. unfold calls.
  assert (H : ∀ s, ConnStats_ok s →
                   ConnStats_ok (fold_left call ops s)
                   ∧ endpoint (fold_left call ops s) = endpoint s).
  { induction Hops as [|op ops Hop _ IH]; intros s Hs; [done|].
    simpl. destruct (IH (call s op)) as [H1 H2]; [by apply call_ok|].
    split; [done|]. by rewrite H2, call_endpoint. }
  apply (H (newConnStats e)), newConnStats_ok.
Qed.

Lemma calls_keep_types_witness :
  Forall well_typed opsSample
  ∧ ConnStats_ok (calls (newConnStats "a") opsSample)
  ∧ endpoint (calls (newConnStats "a") opsSample) = "a"%string.
Proof.
  assert (H : Forall well_typed opsSample).
  { unfold opsSample. repeat constructor; unfold is_int64; simpl; lia. }
  split; [exact H|]. apply (calls_keep_types "a" opsSample H).
Defined.

(** X7. Setters of different fields commute: the record after two such
    calls does not depend on their order. *)
Theorem setters_commute (s : ConnStats) (a b : setter) :
  target a ≠ target b → call (call s a) b = call (call s b) a.
Proof. destruct a, b; simpl; intros H; first [done | reflexivity]. Qed.

Lemma setters_commute_witness :
  target (SetInputBytes 5) ≠ target (SetTotalCallFailures countsFromMinusThree)
  ∧ setTotalCallFailures (setInputBytes statsLatency 5) countsFromMinusThree
    = setInputBytes (setTotalCallFailures statsLatency countsFromMinusThree) 5.
Proof.
  split; [discriminate|].
  apply (setters_commute statsLatency (SetInputBytes 5)
           (SetTotalCallFailures countsFromMinusThree)).
  discriminate.
Defined.

(** X8. A second call of the same setter wins over the first: the record
    is as if only the second had been made. For the failure array this
    needs both arrays to have their 112 slots. *)
Theorem setters_overwrite (s : ConnStats) (a b : setter) :
  target a = target b →
  Z.of_nat (length (totalFailedCalls s)) = errorHTTPStatusCodes →
  well_typed b →
  call (call s a) b = call s b.
Proof.
  destruct a, b; simpl; try discriminate; intros _ Hs Hb; try reflexivity.
  destruct Hb as [Hb _]. unfold setTotalCallFailures. simpl. f_equal.
  rewrite !(storeFailures_all n0); [done | lia |].
  rewrite storeFailures_length. lia.
Qed.

Lemma setters_overwrite_witness :
  (target (SetTotalCallFailures (replicate 112 9))
   = target (SetTotalCallFailures countsFromMinusThree)
   ∧ Z.of_nat (length (totalFailedCalls statsLatency)) = errorHTTPStatusCodes
   ∧ well_typed (SetTotalCallFailures countsFromMinusThree))
  ∧ setTotalCallFailures (setTotalCallFailures statsLatency (replicate 112 9))
      countsFromMinusThree
    = setTotalCallFailures statsLatency countsFromMinusThree.
Proof.
  assert (H : well_typed (SetTotalCallFailures countsFromMinusThree)).
  { split; [reflexivity|]. unfold countsFromMinusThree.
    apply Forall_fmap, Forall_forall.
    intros i Hi%elem_of_seq. unfold is_int64. simpl. lia. }
  split; [split_and!; [reflexivity | reflexivity | exact H]|].
  apply (setters_overwrite statsLatency (SetTotalCallFailures (replicate 112 9))
           (SetTotalCallFailures countsFromMinusThree) eq_refl eq_refl H).
Defined.

(** X9. Storing loses nothing: two [int64] arguments that leave the same
    stored byte count are equal, and the argument is the stored value read
    back as a signed 64-bit integer. *)
Theorem setInputBytes_injective (s1 s2 : ConnStats) (n m : Z) :
  is_int64 n → is_int64 m →
  (getTotalInputBytes (setInputBytes s1 n) = getTotalInputBytes (setInputBytes s2 m)
   → n = m)
  ∧ (getTotalOutputBytes (setOutputBytes s1 n) = getTotalOutputBytes (setOutputBytes s2 m)
     → n = m)
  ∧ (let u := getTotalInputBytes (setInputBytes s1 n) in
     n = if u <? 2 ^ 63 then u else u - 2 ^ 64).
Proof.
  intros Hn Hm. unfold getTotalInputBytes, getTotalOutputBytes. simpl.
  assert (Hback : ∀ x, is_int64 x →
            x = if uint64_of x <? 2 ^ 63 then uint64_of x else uint64_of x - 2 ^ 64).
  { intros x Hx. destruct (Z.lt_ge_cases x 0).
    - rewrite uint64_of_neg by done. unfold is_int64 in Hx.
      destruct (Z.ltb_spec (x + 2 ^ 64) (2 ^ 63)); lia.
    - rewrite uint64_of_nonneg by done. unfold is_int64 in Hx.
      destruct (Z.ltb_spec x (2 ^ 63)); lia. }
  split_and!.
  - intros Heq. rewrite (Hback n Hn), (Hback m Hm). by rewrite Heq.
  - intros Heq. rewrite (Hback n Hn), (Hback m Hm). by rewrite Heq.
  - by apply Hback.
Qed.

Lemma setInputBytes_injective_witness :
  (is_int64 (-1) ∧ is_int64 (-1))
  ∧ -1 = (if getTotalInputBytes (setInputBytes statsLatency (-1)) <? 2 ^ 63
          then getTotalInputBytes (setInputBytes statsLatency (-1))
          else getTotalInputBytes (setInputBytes statsLatency (-1)) - 2 ^ 64).
Proof.
  assert (H : is_int64 (-1)) by (unfold is_int64; lia).
  split; [by split|].
  destruct (setInputBytes_injective statsLatency statsLatency (-1) (-1) H H)
    as (_ & _ & Hback).
  exact Hback.
Defined.

(** ** More on what [Collect] emits *)

Lemma length_errorsMetrics ep k counters :
  length (errorsMetrics ep k counters) = length (filter (λ v, 0 < v) counters).
Proof.
  revert k. induction counters as [|v rest IH]; intros k; [done|].
  cbn [errorsMetrics]. rewrite length_app, IH, filter_cons.
  destruct (Z.ltb_spec 0 v); destruct (decide (0 < v)); simpl; lia.
Qed.

Lemma length_metricsOf s : length (metricsOf s) = (3 + exportedSlots s)%nat.
Proof.
  unfold metricsOf, exportedSlots. simpl.
  rewrite length_app, length_errorsMetrics. simpl. lia.
Qed.

Lemma length_concat_metrics (reg : list (option ConnStats)) :
  length (concat (metricsOfPtr <$> reg)) = sum_list (metricCount <$> reg).
Proof.
  induction reg as [|c reg IH]; [done|].
  rewrite !fmap_cons. cbn [concat sum_list_with]. unfold id at 1.
  rewrite length_app, IH. f_equal.
  destruct c as [s|]; [apply length_metricsOf | done].
Qed.

Lemma exportedSlots_le s : (exportedSlots s ≤ length (totalFailedCalls s))%nat.
Proof. unfold exportedSlots. apply length_filter. Qed.

Lemma errorsMetrics_of_registry (reg : list (option ConnStats)) s k counters :
  Some s ∈ reg →
  Forall (metric_of_registry reg) (errorsMetrics (endpoint s) k counters).
Proof.
  intros Hs. revert k. induction counters as [|v rest IH]; intros k; [constructor|].
  cbn [errorsMetrics]. apply Forall_app. split; [|apply IH].
  destruct (0 <? v); [|constructor].
  constructor; [|constructor].
  split_and!; [reflexivity | reflexivity | reflexivity
              | repeat constructor | by exists s].
Qed.

Lemma base_of_registry (reg : list (option ConnStats)) s m :
  Some s ∈ reg → m ∈ [requestsMetric s; rxMetric s; txMetric s] →
  metric_of_registry reg m.
Proof.
  intros Hs Hm. rewrite !elem_of_cons, elem_of_nil in Hm.
  destruct Hm as [->|[->|[->|[]]]];
    (split_and!; [reflexivity | reflexivity | reflexivity
                 | repeat constructor | by exists s]).
Qed.

Lemma metricsOf_of_registry (reg : list (option ConnStats)) s :
  Some s ∈ reg → Forall (metric_of_registry reg) (metricsOf s).
Proof.
  intros Hs. unfold metricsOf.
  constructor; [apply (base_of_registry reg s); [done | repeat constructor]|].
  apply Forall_app. split; [by apply errorsMetrics_of_registry|].
  repeat (constructor; [apply (base_of_registry reg s); [done | repeat constructor]|]).
  constructor.
Qed.

Lemma concat_of_registry (reg reg' : list (option ConnStats)) :
  reg' ⊆ reg → Forall (metric_of_registry reg) (concat (metricsOfPtr <$> reg')).
Proof.
  induction reg' as [|c reg' IH]; intros Hsub; [constructor|].
  rewrite fmap_cons. cbn [concat]. apply Forall_app. split.
  - destruct c as [s|]; [|constructor].
    apply metricsOf_of_registry. apply Hsub. set_solver.
  - apply IH. set_solver.
Qed.

(** X10. [Collect] only appends to the channel, and what it sends does not
    depend on what was sent before: it returns normally on a registry made
    of two parts exactly when it does so on each part, and then the channel
    holds what it held, followed by the output for the first part and the
    output for the second. *)
Theorem Collect_appends (ch : chan) (reg1 reg2 : list (option ConnStats))
  (out : list Metric) :
  Collect ch (reg1 ++ reg2) = Ok out
  ↔ ∃ out1 out2,
      Collect [] reg1 = Ok out1
      ∧ Collect [] reg2 = Ok out2
      ∧ out = ch ++ out1 ++ out2.
Proof.
  split.
  - intros [Hvalid ->]%Collect_Ok_inv.
    apply Forall_app in Hvalid as [H1 H2].
    exists (concat (metricsOfPtr <$> reg1)), (concat (metricsOfPtr <$> reg2)).
    rewrite !Collect_spec by done. split_and!; try done.
    by rewrite fmap_app, concat_app.
  - intros (out1 & out2 & [H1 ->]%Collect_Ok_inv & [H2 ->]%Collect_Ok_inv & ->).
    rewrite Collect_spec by by apply Forall_app.
    by rewrite fmap_app, concat_app.
Qed.

Lemma Collect_appends_witness :
  Collect [] ([Some statsSeven404] ++ [None; Some statsAllFive])
  = Ok ([] ++ metricsOf statsSeven404 ++ metricsOf statsAllFive).
Proof.
  apply (Collect_appends [] [Some statsSeven404] [None; Some statsAllFive]).
  exists (metricsOf statsSeven404), (metricsOf statsAllFive).
  split_and!; reflexivity.
Defined.

(** X11. The size of a scrape: on a registry whose endpoints are valid
    UTF-8, [Collect] sends three metrics per non-nil entry plus one per
    failure slot holding a positive count, so at most 115 metrics per entry
    when the failure arrays have their 112 slots. *)
Theorem Collect_output_size (ch : chan) (reg : list (option ConnStats)) :
  Forall valid_endpoint reg →
  ∃ out,
    Collect ch reg = Ok (ch ++ out)
    ∧ length out = sum_list (metricCount <$> reg)
    ∧ (Forall (λ c, ∀ s, c = Some s →
                 Z.of_nat (length (totalFailedCalls s)) = errorHTTPStatusCodes) reg →
       (length out ≤ 115 * length reg)%nat).
Proof.
  intros Hvalid. exists (concat (metricsOfPtr <$> reg)).
  split_and!; [by apply Collect_spec | apply length_concat_metrics |].
  intros Hreg. rewrite length_concat_metrics. clear Hvalid.
  induction Hreg as [|c reg Hc _ IH]; [done|].
  rewrite fmap_cons. cbn [sum_list_with length]. unfold id at 1.
  assert (metricCount c ≤ 115)%nat; [|lia].
  destruct c as [s|]; simpl; [|lia].
  pose proof (exportedSlots_le s). specialize (Hc s eq_refl).
  rewrite errorHTTPStatusCodes_eq in Hc. lia.
Qed.

Lemma Collect_output_size_witness :
  (Forall valid_endpoint [Some statsAllFive; None; Some statsSeven404]
   ∧ Forall (λ c : option ConnStats, ∀ s, c = Some s →
               Z.of_nat (length (totalFailedCalls s)) = errorHTTPStatusCodes)
       [Some statsAllFive; None; Some statsSeven404])
  ∧ ∃ out, Collect [] [Some statsAllFive; None; Some statsSeven404] = Ok out
           ∧ length out = 119%nat.
Proof.
  assert (Hv : Forall valid_endpoint [Some statsAllFive; None; Some statsSeven404]).
  { apply forallb_valid. reflexivity. }
  assert (H : Forall (λ c : option ConnStats, ∀ s, c = Some s →
                Z.of_nat (length (totalFailedCalls s)) = errorHTTPStatusCodes)
                [Some statsAllFive; None; Some statsSeven404]).
  { repeat constructor; intros s [= <-]; reflexivity. }
  split; [split; [exact Hv | exact H]|].
  destruct (Collect_output_size [] [Some statsAllFive; None; Some statsSeven404] Hv)
    as (out & Hout & Hlen & _).
  exists out. split; [exact Hout | exact Hlen].
Defined.

(** X12. Every metric [Collect] sends is a counter without constant
    labels, has as many label values as its descriptor has label names, is
    named [sidekick_requests_total], [sidekick_errors_total],
    [sidekick_rx_bytes_total] or [sidekick_tx_bytes_total], and carries as
    its [endpoint] label the endpoint of a record of the registry. *)
Theorem Collect_metrics_well_formed (reg : list (option ConnStats)) (out : list Metric) :
  Collect [] reg = Ok out → Forall (metric_of_registry reg) out.
Proof.
  intros [_ ->]%Collect_Ok_inv. rewrite app_nil_l. by apply concat_of_registry.
Qed.

Lemma Collect_metrics_well_formed_witness :
  Collect [] [None; Some statsSeven404] = Ok (metricsOf statsSeven404)
  ∧ Forall (metric_of_registry [None; Some statsSeven404]) (metricsOf statsSeven404).
Proof.
  assert (H : Collect [] [None; Some statsSeven404] = Ok (metricsOf statsSeven404))
    by reflexivity.
  split; [exact H|].
  apply (Collect_metrics_well_formed [None; Some statsSeven404] _ H).
Defined.

Lemma failureCodes_app l1 l2 :
  failureCodes (l1 ++ l2) = failureCodes l1 ++ failureCodes l2.
Proof. unfold failureCodes. apply omap_app. Qed.

Lemma failureCodes_errorsMetric ep k v :
  is_int64 (Z.of_nat k + StatusBadRequest) →
  failureCodes [errorsMetric ep k v] = [Z.of_nat k + StatusBadRequest].
Proof.
  intros Hk. unfold failureCodes. cbn [omap list_omap].
  destruct (decide (is_failure (errorsMetric ep k v))) as [_|Hn];
    [|by destruct Hn].
  change (label "status_code" (errorsMetric ep k v))
    with (Some (Itoa (Z.of_nat k + StatusBadRequest))).
  cbn [fmap option_fmap option_map]. by rewrite Atoi_Itoa.
Qed.

Lemma failureCodes_errorsMetrics ep k counters :
  Z.of_nat (k + length counters) + StatusBadRequest < 2 ^ 63 →
  StronglySorted Z.lt (failureCodes (errorsMetrics ep k counters))
  ∧ Forall (λ c, Z.of_nat k + StatusBadRequest ≤ c
                 < Z.of_nat (k + length counters) + StatusBadRequest)
      (failureCodes (errorsMetrics ep k counters))
  ∧ length (failureCodes (errorsMetrics ep k counters))
    = length (filter (λ v, 0 < v) counters).
Proof.
  revert k. induction counters as [|v rest IH]; intros k Hk.
  - split_and!; [constructor | constructor | done].
  - cbn [errorsMetrics length] in *. rewrite failureCodes_app.
    destruct (IH (S k)) as (Hsorted & Hrange & Hlen); [lia|].
    assert (Hrange' : Forall (λ c, Z.of_nat k + StatusBadRequest < c
                        < Z.of_nat (k + S (length rest)) + StatusBadRequest)
                        (failureCodes (errorsMetrics ep (S k) rest))).
    { eapply Forall_impl; [exact Hrange|]. intros c Hc. cbv beta in Hc |- *. lia. }
    rewrite filter_cons.
    destruct (Z.ltb_spec 0 v); destruct (decide (0 < v)); try lia.
    + rewrite failureCodes_errorsMetric
        by (unfold is_int64, StatusBadRequest in *; lia).
      cbn [app]. split_and!.
      * constructor; [done|]. eapply Forall_impl; [exact Hrange'|].
        intros c Hc. cbv beta in Hc |- *. lia.
      * constructor; [lia|]. eapply Forall_impl; [exact Hrange'|].
        intros c Hc. cbv beta in Hc |- *. lia.
      * simpl. by rewrite Hlen.
    + cbn [failureCodes omap list_omap app]. split_and!; [done| |done].
      eapply Forall_impl; [exact Hrange'|]. intros c Hc. cbv beta in Hc |- *. lia.
Qed.

Lemma failureCodes_metricsOf s :
  failureCodes (metricsOf s)
  = failureCodes (errorsMetrics (endpoint s) 0 (totalFailedCalls s)).
Proof.
  unfold metricsOf.
  change (requestsMetric s :: ?l) with ([requestsMetric s] ++ l).
  rewrite !failureCodes_app.
  change (failureCodes [requestsMetric s]) with (@nil Z).
  change (failureCodes [rxMetric s; txMetric s]) with (@nil Z).
  by rewrite app_nil_l, app_nil_r.
Qed.

(** X13. The failure metrics of a record are sent in ascending order of
    status code, one per code at most, and every code lies in 400..511:
    the codes read back from the [status_code] labels are strictly
    increasing, within range, and as many as the slots holding a positive
    count. *)
Theorem Collect_failure_codes_ascending (s : ConnStats) (out : list Metric) :
  Z.of_nat (length (totalFailedCalls s)) = errorHTTPStatusCodes →
  collectOne [] (Some s) = Ok out →
  StronglySorted Z.lt (failureCodes out)
  ∧ Forall (λ c, 400 ≤ c ≤ 511) (failureCodes out)
  ∧ length (failureCodes out) = exportedSlots s.
Proof.
  intros Hlen. rewrite collectOne_cases.
  destruct (valid_endpointb (Some s)); [|done].
  cbn [metricsOfPtr]. rewrite app_nil_l. intros [= <-].
  rewrite errorHTTPStatusCodes_eq in Hlen.
  rewrite failureCodes_metricsOf.
  destruct (failureCodes_errorsMetrics (endpoint s) 0 (totalFailedCalls s))
    as (Hsorted & Hrange & Hcount).
  { unfold StatusBadRequest. simpl (0 + _)%nat. lia. }
  split_and!; [done | | done].
  eapply Forall_impl; [exact Hrange|]. intros c Hc.
  unfold StatusBadRequest in Hc. simpl (0 + _)%nat in Hc. lia.
Qed.

Lemma Collect_failure_codes_ascending_witness :
  (Z.of_nat (length (totalFailedCalls statsAllFive)) = errorHTTPStatusCodes
   ∧ collectOne [] (Some statsAllFive) = Ok (metricsOf statsAllFive))
  ∧ StronglySorted Z.lt (failureCodes (metricsOf statsAllFive))
  ∧ length (failureCodes (metricsOf statsAllFive)) = 112%nat.
Proof.
  assert (H : collectOne [] (Some statsAllFive) = Ok (metricsOf statsAllFive))
    by reflexivity.
  split; [split; [reflexivity | exact H]|].
  destruct (Collect_failure_codes_ascending statsAllFive _ eq_refl H)
    as (Hsorted & _ & Hlen).
  split; [exact Hsorted | exact Hlen].
Defined.

Lemma forallb_fmap {A} (f : A → bool) (l : list A) :
  forallb f l = forallb id (f <$> l).
Proof. induction l as [|x l IH]; [done|]. rewrite fmap_cons. simpl. by rewrite IH. Qed.

Lemma Collect_congr ch (reg reg' : list (option ConnStats)) :
  valid_endpointb <$> reg = valid_endpointb <$> reg' →
  metricsOfPtr <$> reg = metricsOfPtr <$> reg' →
  Collect ch reg = Collect ch reg'.
Proof.
  intros Hv Hm. rewrite !Collect_cases.
  by rewrite (forallb_fmap _ reg), (forallb_fmap _ reg'), Hv, Hm.
Qed.

(** X21. The order within a record's turn, for a record whose endpoint is
    valid UTF-8: first the total-calls metric, then the failure metrics and
    nothing else, then bytes received, then bytes sent. *)
Theorem Collect_order_in_record (ch : chan) (s : ConnStats) :
  utf8.ValidString (endpoint s) = true →
  ∃ calls failures rx tx,
    collectOne ch (Some s) = Ok (ch ++ calls :: failures ++ [rx; tx])
    ∧ has_name "sidekick_requests_total" calls
    ∧ Forall is_failure failures
    ∧ has_name "sidekick_rx_bytes_total" rx
    ∧ has_name "sidekick_tx_bytes_total" tx.
Proof.
  intros Hvalid.
  exists (requestsMetric s),
         (errorsMetrics (endpoint s) 0 (totalFailedCalls s)),
         (rxMetric s), (txMetric s).
  split_and!; [by apply collectOne_Some | reflexivity | | reflexivity | reflexivity].
  apply is_failure_errorsMetrics.
Qed.

Lemma Collect_order_in_record_witness :
  utf8.ValidString (endpoint statsSeven404) = true
  ∧ ∃ calls failures rx tx,
      collectOne [] (Some statsSeven404) = Ok ([] ++ calls :: failures ++ [rx; tx])
      ∧ Forall is_failure failures.
Proof.
  split; [reflexivity|].
  destruct (Collect_order_in_record [] statsSeven404 eq_refl)
    as (calls & failures & rx & tx & Hout & _ & Hf & _).
  exists calls, failures, rx, tx. split; [exact Hout | exact Hf].
Defined.

(** X14. [Collect] never exports the latency bounds: writing [minLatency]
    or [maxLatency] of a record of the registry leaves the output of a
    scrape unchanged. *)
Theorem Collect_ignores_latency (ch : chan) (reg : list (option ConnStats))
  (k : nat) (s : ConnStats) (d : Z) :
  reg !! k = Some (Some s) →
  Collect ch (<[k := Some (setMinLatency s d)]> reg) = Collect ch reg
  ∧ Collect ch (<[k := Some (setMaxLatency s d)]> reg) = Collect ch reg.
Proof.
  intros Hk.
  assert (H : ∀ s', valid_endpointb (Some s') = valid_endpointb (Some s) →
                    metricsOfPtr (Some s') = metricsOfPtr (Some s) →
                    Collect ch (<[k := Some s']> reg) = Collect ch reg).
  { intros s' Hv Hm. apply Collect_congr.
    - rewrite list_fmap_insert, Hv. apply list_insert_id.
      by rewrite list_lookup_fmap, Hk.
    - rewrite list_fmap_insert, Hm. apply list_insert_id.
      by rewrite list_lookup_fmap, Hk. }
  split; by apply H.
Qed.

Lemma Collect_ignores_latency_witness :
  [None; Some statsSeven404] !! 1%nat = Some (Some statsSeven404)
  ∧ Collect [] [None; Some (setMinLatency statsSeven404 99)]
    = Collect [] [None; Some statsSeven404].
Proof.
  split; [reflexivity|].
  destruct (Collect_ignores_latency [] [None; Some statsSeven404] 1
              statsSeven404 99 eq_refl) as [Hmin _].
  exact Hmin.
Defined.

(** X15. A negative count is exported, not suppressed: for a record whose
    endpoint is valid UTF-8, after [setTotalCallFailures(counts)] the
    record gets exactly one failure
    metric for status [400 + i] when [counts[i]] is not zero, positive or
    negative, with value [float64(uint64(counts[i]))], which for a negative
    count is the conversion of [counts[i] + 2^64]; and it gets none when
    [counts[i]] is zero. *)
Theorem Collect_after_setTotalCallFailures (s : ConnStats) (counts : list Z)
  (i : nat) (c : Z) :
  utf8.ValidString (endpoint s) = true →
  Z.of_nat (length (totalFailedCalls s)) = errorHTTPStatusCodes →
  Z.of_nat (length counts) = errorHTTPStatusCodes →
  counts !! i = Some c → is_int64 c →
  ∃ out,
    collectOne [] (Some (setTotalCallFailures s counts)) = Ok out
    ∧ (c ≠ 0 →
       ∃ m, filter (failure_with_code (Itoa (Z.of_nat i + 400))) out = [m]
            ∧ value m = float64_of (uint64_of c)
            ∧ (c < 0 → value m = float64_of (c + 2 ^ 64)))
    ∧ (c = 0 → filter (failure_with_code (Itoa (Z.of_nat i + 400))) out = []).
Proof.
  intros Hvalid Hs Hc Hi Hint.
  exists (metricsOf (setTotalCallFailures s counts)).
  rewrite errorHTTPStatusCodes_eq in *.
  pose proof (lookup_lt_Some _ _ _ Hi) as Hlt.
  assert (Hslot : totalFailedCalls (setTotalCallFailures s counts) !! i
                  = Some (uint64_of c)).
  { simpl. rewrite storeFailures_all by lia.
    by rewrite list_lookup_fmap, Hi. }
  assert (Hfilter :
    filter (failure_with_code (Itoa (Z.of_nat i + 400)))
           (metricsOf (setTotalCallFailures s counts))
    = if 0 <? uint64_of c
      then [errorsMetric (endpoint s) i (uint64_of c)] else []).
  { rewrite filter_metricsOf.
    apply (filter_errorsMetrics_at _ 0 _ i _ Hslot).
    simpl. rewrite storeFailures_length. unfold StatusBadRequest. lia. }
  split_and!.
  - by rewrite collectOne_Some.
  - intros Hne. exists (errorsMetric (endpoint s) i (uint64_of c)).
    rewrite Hfilter.
    assert (0 < uint64_of c).
    { destruct (Z.lt_ge_cases c 0).
      - rewrite uint64_of_neg by done. unfold is_int64 in Hint. lia.
      - rewrite uint64_of_nonneg by done. lia. }
    destruct (Z.ltb_spec 0 (uint64_of c)); [|lia].
    split_and!; [done | done |].
    intros Hneg. cbn [value errorsMetric]. by rewrite uint64_of_neg.
  - intros ->. by rewrite Hfilter.
Qed.

Lemma Collect_after_setTotalCallFailures_witness :
  (utf8.ValidString (endpoint statsAllFive) = true
   ∧ Z.of_nat (length (totalFailedCalls statsAllFive)) = errorHTTPStatusCodes
   ∧ Z.of_nat (length countsFromMinusThree) = errorHTTPStatusCodes
   ∧ countsFromMinusThree !! 2%nat = Some (-1) ∧ is_int64 (-1))
  ∧ ∃ out m,
      collectOne [] (Some (setTotalCallFailures statsAllFive countsFromMinusThree))
      = Ok out
      ∧ filter (failure_with_code "402") out = [m]
      ∧ float_int (value m) = Some (2 ^ 64).
Proof.
  assert (H : is_int64 (-1)) by (unfold is_int64; lia).
  split; [split_and!; [reflexivity | reflexivity | reflexivity | reflexivity | exact H]|].
  destruct (Collect_after_setTotalCallFailures statsAllFive countsFromMinusThree
              2 (-1) eq_refl eq_refl eq_refl eq_refl H) as (out & Hout & Hne & _).
  destruct Hne as (m & Hm & Hval & _); [lia|].
  exists out, m. split_and!; [exact Hout | exact Hm |].
  rewrite Hval. by vm_compute.
Defined.

Lemma filter_name_errorsMetrics name ep k counters :
  name ≠ "sidekick_errors_total"%string →
  filter (has_name name) (errorsMetrics ep k counters) = [].
Proof.
  intros Hne.
  pose proof (is_failure_errorsMetrics ep k counters) as Hf.
  induction Hf as [|m l Hm _ IH]; [done|].
  rewrite filter_cons_False; [done|].
  unfold has_name, is_failure in *. by rewrite Hm.
Qed.

Lemma filter_name_metricsOf name s :
  name ≠ "sidekick_errors_total"%string →
  filter (has_name name) (metricsOf s)
  = filter (has_name name) [requestsMetric s; rxMetric s; txMetric s].
Proof.
  intros Hne. unfold metricsOf.
  change (requestsMetric s :: ?l) with ([requestsMetric s] ++ l).
  rewrite !filter_app, filter_name_errorsMetrics by done.
  by rewrite app_nil_l, <- filter_app.
Qed.

(** X16. What is set is what is scraped: for a record whose endpoint is
    valid UTF-8, after [setInputBytes(n)], [setOutputBytes(n)] or
    [setTotalCalls(n)] with [0 ≤ n ≤ 2^53], the
    record's turn in [Collect] sends exactly one metric of the matching
    name ([sidekick_rx_bytes_total], [sidekick_tx_bytes_total],
    [sidekick_requests_total]), and its value is exactly [n]. *)
Theorem Collect_after_set (s : ConnStats) (n : Z) :
  utf8.ValidString (endpoint s) = true →
  0 ≤ n ≤ 2 ^ 53 →
  (∃ out m, collectOne [] (Some (setInputBytes s n)) = Ok out
            ∧ filter (has_name "sidekick_rx_bytes_total") out = [m]
            ∧ float_int (value m) = Some n
            ∧ label "endpoint" m = Some (endpoint s))
  ∧ (∃ out m, collectOne [] (Some (setOutputBytes s n)) = Ok out
              ∧ filter (has_name "sidekick_tx_bytes_total") out = [m]
              ∧ float_int (value m) = Some n
              ∧ label "endpoint" m = Some (endpoint s))
  ∧ (∃ out m, collectOne [] (Some (setTotalCalls s n)) = Ok out
              ∧ filter (has_name "sidekick_requests_total") out = [m]
              ∧ float_int (value m) = Some n
              ∧ label "endpoint" m = Some (endpoint s)).
Proof.
  intros Hvalid Hn.
  assert (Hu : uint64_of n = n).
  { apply uint64_of_nonneg; [lia|]. unfold is_int64. lia. }
  split_and!.
  - exists (metricsOf (setInputBytes s n)), (rxMetric (setInputBytes s n)).
    rewrite collectOne_Some, filter_name_metricsOf by done.
    split_and!; try done.
    cbn [value rxMetric totalInputBytes setInputBytes]. rewrite Hu.
    by apply float64_of_exact.
  - exists (metricsOf (setOutputBytes s n)), (txMetric (setOutputBytes s n)).
    rewrite collectOne_Some, filter_name_metricsOf by done.
    split_and!; try done.
    cbn [value txMetric totalOutputBytes setOutputBytes]. rewrite Hu.
    by apply float64_of_exact.
  - exists (metricsOf (setTotalCalls s n)), (requestsMetric (setTotalCalls s n)).
    rewrite collectOne_Some, filter_name_metricsOf by done.
    split_and!; try done.
    cbn [value requestsMetric totalCalls setTotalCalls]. rewrite Hu.
    by apply float64_of_exact.
Qed.

Lemma Collect_after_set_witness :
  (utf8.ValidString (endpoint statsSeven404) = true ∧ 0 ≤ 4096 ≤ 2 ^ 53)
  ∧ ∃ out m, collectOne [] (Some (setInputBytes statsSeven404 4096)) = Ok out
             ∧ filter (has_name "sidekick_rx_bytes_total") out = [m]
             ∧ float_int (value m) = Some 4096.
Proof.
  assert (H : 0 ≤ 4096 ≤ 2 ^ 53) by lia.
  split; [split; [reflexivity | exact H]|].
  destruct (Collect_after_set statsSeven404 4096 eq_refl H)
    as ((out & m & Hout & Hm & Hval & _) & _ & _).
  exists out, m. split_and!; [exact Hout | exact Hm | exact Hval].
Defined.

(** X17. [Describe] sends one descriptor, [sidekick_stats] without labels,
    and no metric [Collect] sends uses it: the descriptors of the collected
    metrics are none of those described. *)
Theorem Describe_not_collected (ch : list Desc) :
  ∃ d, Describe newSidekickCollector ch = ch ++ [d]
       ∧ fqName d = "sidekick_stats"%string
       ∧ variableLabels d = []
       ∧ ∀ reg out, Collect [] reg = Ok out → Forall (λ m, desc m ≠ d) out.
Proof.
  exists (collectorDesc newSidekickCollector). split_and!; try reflexivity.
  intros reg out [_ ->]%Collect_Ok_inv. rewrite app_nil_l.
  eapply Forall_impl; [by apply (concat_of_registry reg reg)|].
  intros m (_ & _ & _ & Hname & _) Heq. rewrite Heq in Hname.
  cbn in Hname. rewrite !elem_of_cons, elem_of_nil in Hname.
  destruct Hname as [?|[?|[?|[?|[]]]]]; discriminate.
Qed.

(** ** The latency summary *)

Lemma WithLabelValues_three vec a b c :
  length (labelNames vec) = 3%nat →
  WithLabelValues vec [a; b; c]
  = if utf8.ValidString a && utf8.ValidString b && utf8.ValidString c
    then match series vec !! [a; b; c] with
         | Some _ => Ok (vec, [a; b; c])
         | None => Ok (mkSummaryVec (labelNames vec)
                         (<[ [a; b; c] := [] ]> (series vec)), [a; b; c])
         end
    else Panic InvalidLabelValue.
Proof.
  intros Hlen. unfold WithLabelValues, validateLabelValues. rewrite Hlen.
  cbn [length Nat.eqb negb forallb]. rewrite andb_true_r, andb_assoc.
  by destruct (utf8.ValidString a && utf8.ValidString b && utf8.ValidString c).
Qed.

Lemma setAvgLatency_spec vec s mn method path :
  length (labelNames vec) = 3%nat →
  utf8.ValidString (endpoint s) = true →
  utf8.ValidString method = true →
  utf8.ValidString (bucketFromPath path) = true →
  setAvgLatency vec s mn method path
  = Ok (mkSummaryVec (labelNames vec)
          (<[ [endpoint s; method; bucketFromPath path]
              := observations vec [endpoint s; method; bucketFromPath path]
                 ++ [float64_of mn] ]> (series vec))).
Proof.
  intros Hlen He Hm Hb. unfold setAvgLatency, observations.
  rewrite getBucketFromPath_refines, bind_Ok.
  rewrite WithLabelValues_three, He, Hm, Hb by done. cbn [andb].
  destruct (series vec !! [endpoint s; method; bucketFromPath path]) as [obs|] eqn:E.
  - rewrite bind_Ok. unfold Observe. by rewrite E.
  - rewrite bind_Ok. unfold Observe. cbn [labelNames series].
    by rewrite lookup_insert_eq, insert_insert_eq.
Qed.

Lemma setAvgLatency_invalid vec s mn method path :
  length (labelNames vec) = 3%nat →
  utf8.ValidString (endpoint s) && utf8.ValidString method
    && utf8.ValidString (bucketFromPath path) = false →
  setAvgLatency vec s mn method path = Panic InvalidLabelValue.
Proof.
  intros Hlen Hbad. unfold setAvgLatency.
  rewrite getBucketFromPath_refines, bind_Ok.
  by rewrite WithLabelValues_three, Hbad by done.
Qed.

(** X18. When the summary has its three labels and the record's endpoint,
    the method and the bucket of the path are valid UTF-8, [setAvgLatency]
    does not panic: it adds [float64(mn)] at the end of the series
    labelled with these three values, creating the series when it is new,
    and leaves every other series as it was. *)
Theorem setAvgLatency_observes (vec : SummaryVec) (s : ConnStats) (mn : Z)
  (method path bucket : string) :
  length (labelNames vec) = 3%nat →
  getBucketFromPath path = Ok bucket →
  utf8.ValidString (endpoint s) = true →
  utf8.ValidString method = true →
  utf8.ValidString bucket = true →
  ∃ vec',
    setAvgLatency vec s mn method path = Ok vec'
    ∧ labelNames vec' = labelNames vec
    ∧ observations vec' [endpoint s; method; bucket]
      = observations vec [endpoint s; method; bucket] ++ [float64_of mn]
    ∧ (∀ key, key ≠ [endpoint s; method; bucket] →
              series vec' !! key = series vec !! key)
    ∧ dom (series vec') = {[ [endpoint s; method; bucket] ]} ∪ dom (series vec).
Proof.
  intros Hlen Hbucket He Hm Hb.
  rewrite getBucketFromPath_refines in Hbucket. injection Hbucket as <-.
  eexists. split; [by apply setAvgLatency_spec|].
  cbn [labelNames series]. split_and!.
  - done.
  - unfold observations at 1. cbn [series]. by rewrite lookup_insert_eq.
  - intros key Hkey. by rewrite lookup_insert_ne.
  - by rewrite dom_insert_L.
Qed.

Lemma setAvgLatency_observes_witness :
  (length (labelNames latencyMetric_init) = 3%nat
   ∧ getBucketFromPath "/photos/a.jpg" = Ok "photos"%string
   ∧ utf8.ValidString (endpoint statsSeven404) = true
   ∧ utf8.ValidString "PUT" = true
   ∧ utf8.ValidString "photos" = true)
  ∧ ∃ vec', setAvgLatency latencyMetric_init statsSeven404 1500 "PUT" "/photos/a.jpg"
            = Ok vec'
            ∧ observations vec' ["10.0.0.1:9000"; "PUT"; "photos"]%string
              = [float64_of 1500].
Proof.
  split; [split_and!; reflexivity|].
  destruct (setAvgLatency_observes latencyMetric_init statsSeven404 1500
              "PUT" "/photos/a.jpg" "photos" eq_refl eq_refl eq_refl eq_refl eq_refl)
    as (vec' & Hvec & _ & Hobs & _).
  exists vec'. split; [exact Hvec | exact Hobs].
Defined.

(** X19. Requests of one endpoint and method whose paths have the same
    bucket feed one series, when endpoint, method and bucket are valid
    UTF-8: after two such calls the series holds both observations, in
    order, and the second call creates no series. *)
Theorem setAvgLatency_same_series (vec : SummaryVec) (s : ConnStats)
  (d1 d2 : Z) (method p1 p2 bucket : string) :
  length (labelNames vec) = 3%nat →
  getBucketFromPath p1 = Ok bucket →
  getBucketFromPath p2 = Ok bucket →
  utf8.ValidString (endpoint s) = true →
  utf8.ValidString method = true →
  utf8.ValidString bucket = true →
  ∃ vec1 vec2,
    setAvgLatency vec s d1 method p1 = Ok vec1
    ∧ setAvgLatency vec1 s d2 method p2 = Ok vec2
    ∧ observations vec2 [endpoint s; method; bucket]
      = observations vec [endpoint s; method; bucket]
        ++ [float64_of d1; float64_of d2]
    ∧ dom (series vec2) = dom (series vec1).
Proof.
  intros Hlen H1 H2 He Hm Hb.
  rewrite getBucketFromPath_refines in H1, H2.
  injection H1 as H1. injection H2 as H2.
  eexists _, _.
  split; [apply setAvgLatency_spec; by rewrite ?H1|].
  split; [apply setAvgLatency_spec; by rewrite ?H2|].
  rewrite H1, H2. cbn [series]. split.
  - unfold observations. cbn [series].
    rewrite !lookup_insert_eq. cbn [default]. unfold id.
    by rewrite <- app_assoc.
  - rewrite !dom_insert_L. by rewrite (assoc_L (∪)), (idemp_L (∪)).
Qed.

Lemma setAvgLatency_same_series_witness :
  (length (labelNames latencyMetric_init) = 3%nat
   ∧ getBucketFromPath "/photos/a.jpg" = Ok "photos"%string
   ∧ getBucketFromPath "photos/b/c.jpg" = Ok "photos"%string
   ∧ utf8.ValidString (endpoint statsSeven404) = true
   ∧ utf8.ValidString "GET" = true
   ∧ utf8.ValidString "photos" = true)
  ∧ ∃ vec1 vec2,
      setAvgLatency latencyMetric_init statsSeven404 7 "GET" "/photos/a.jpg" = Ok vec1
      ∧ setAvgLatency vec1 statsSeven404 9 "GET" "photos/b/c.jpg" = Ok vec2
      ∧ dom (series vec2) = dom (series vec1).
Proof.
  split; [split_and!; reflexivity|].
  destruct (setAvgLatency_same_series latencyMetric_init statsSeven404 7 9 "GET"
              "/photos/a.jpg" "photos/b/c.jpg" "photos"
              eq_refl eq_refl eq_refl eq_refl eq_refl eq_refl)
    as (vec1 & vec2 & H1 & H2 & _ & Hdom).
  exists vec1, vec2. split_and!; [exact H1 | exact H2 | exact Hdom].
Defined.

(** X20. The repository's test [TestConnStats_setAvgLatency] passes for
    every three values the random source returns: no call panics, the
    paths "" and "/" both feed the series with the empty bucket and the
    third path the series of bucket "core-data", and no other series
    exists afterwards. *)
Theorem TestConnStats_setAvgLatency_passes (r1 r2 r3 : Z) :
  ∃ vec,
    TestConnStats_setAvgLatency r1 r2 r3 = Ok vec
    ∧ observations vec ["test"; "GET"; ""]%string = [float64_of r1; float64_of r2]
    ∧ observations vec ["test"; "GET"; "core-data"]%string = [float64_of r3]
    ∧ dom (series vec)
      = {[ ["test"; "GET"; ""]%string; ["test"; "GET"; "core-data"]%string ]}.
Proof.
  unfold TestConnStats_setAvgLatency.
  rewrite setAvgLatency_spec by reflexivity. rewrite bind_Ok.
  rewrite setAvgLatency_spec by reflexivity. rewrite bind_Ok.
  rewrite setAvgLatency_spec by reflexivity.
  eexists. split; [reflexivity|].
  change (bucketFromPath "") with ""%string.
  change (bucketFromPath "/") with ""%string.
  change (bucketFromPath "/core-data/Cheques/dbo__cheques") with "core-data"%string.
  change (endpoint (newConnStats "test")) with "test"%string.
  unfold observations, latencyMetric_init, NewSummaryVec. cbn [series labelNames].
  split_and!.
  - rewrite lookup_insert_ne by done.
    rewrite !lookup_insert_eq. cbn [default]. unfold id.
    by rewrite lookup_empty.
  - rewrite lookup_insert_eq. cbn [default]. unfold id.
    rewrite lookup_insert_ne by done.
    rewrite lookup_insert_ne by done. by rewrite lookup_empty.
  - rewrite !dom_insert_L, dom_empty_L. set_solver.
Qed.

(** ** When the client panics *)

Lemma is_slash_high c : (128 ≤ N_of_ascii c)%N → is_slash c = false.
Proof.
  intros Hc. unfold is_slash. destruct (Ascii.eqb_spec c slash) as [->|]; [|done].
  vm_compute in Hc. by destruct Hc.
Qed.

Lemma is_slash_low c : is_slash c = true → (N_of_ascii c <? utf8.RuneSelf)%N = true.
Proof.
  unfold is_slash. intros ->%Ascii.eqb_eq. reflexivity.
Qed.

Lemma first_lo b size lo hi :
  utf8.first b = Some (size, (lo, hi)) → (128 ≤ lo)%N.
Proof.
  unfold utf8.first.
  repeat (match goal with |- context [if ?c then _ else _] => destruct c end);
    intros [= <- <- <-]; try done; unfold utf8.locb; lia.
Qed.

Lemma within_high lo hi c :
  (128 ≤ lo)%N → utf8.within lo hi c = true → is_slash c = false.
Proof.
  unfold utf8.within. intros Hlo [H1 _]%andb_true_iff.
  apply is_slash_high. apply N.leb_le in H1. lia.
Qed.

Lemma valid_dropLeadingSlashes s :
  utf8.ValidString s = true → utf8.ValidString (dropLeadingSlashes s) = true.
Proof.
  induction s as [|c r IH]; [done|]. intros Hs. cbn [dropLeadingSlashes].
  destruct (is_slash c) eqn:Hc; [|done].
  apply IH. cbn [utf8.ValidString] in Hs. by rewrite (is_slash_low c Hc) in Hs.
Qed.

Lemma valid_takeUntilSlash_le n s :
  (String.length s ≤ n)%nat →
  utf8.ValidString s = true → utf8.ValidString (takeUntilSlash s) = true.
Proof.
  revert s. induction n as [n IH] using lt_wf_ind. intros s Hn Hs.
  destruct s as [|c0 r0]; [done|].
  cbn [takeUntilSlash]. cbn [utf8.ValidString] in Hs.
  destruct (N.ltb_spec (N_of_ascii c0) utf8.RuneSelf) as [Hlow|Hhigh].
  - destruct (is_slash c0); [done|]. cbn [utf8.ValidString].
    destruct (N.ltb_spec (N_of_ascii c0) utf8.RuneSelf); [|lia].
    apply (IH (String.length r0)); simpl in *; [lia | lia | done].
  - rewrite is_slash_high by (unfold utf8.RuneSelf in Hhigh; lia).
    destruct (utf8.first (N_of_ascii c0)) as [[size [lo hi]]|] eqn:Hfirst; [|done].
    pose proof (first_lo _ _ _ _ Hfirst) as Hlo.
    destruct r0 as [|c1 r1]; [done|].
    apply andb_true_iff in Hs as [Hc1 Hs].
    cbn [takeUntilSlash]. rewrite (within_high lo hi c1) by done.
    cbn [utf8.ValidString].
    destruct (N.ltb_spec (N_of_ascii c0) utf8.RuneSelf); [lia|].
    rewrite Hfirst, Hc1. cbn [andb].
    destruct (size =? 2)%N.
    { apply (IH (String.length r1)); simpl in *; [lia | lia | done]. }
    destruct r1 as [|c2 r2]; [done|].
    apply andb_true_iff in Hs as [Hc2 Hs].
    cbn [takeUntilSlash]. rewrite (within_high utf8.locb utf8.hicb c2) by done.
    rewrite Hc2. cbn [andb].
    destruct (size =? 3)%N.
    { apply (IH (String.length r2)); simpl in *; [lia | lia | done]. }
    destruct r2 as [|c3 r3]; [done|].
    apply andb_true_iff in Hs as [Hc3 Hs].
    cbn [takeUntilSlash]. rewrite (within_high utf8.locb utf8.hicb c3) by done.
    rewrite Hc3. cbn [andb].
    apply (IH (String.length r3)); simpl in *; [lia | lia | done].
Qed.

(** X24. The bucket of a path that is valid UTF-8 is valid UTF-8: cutting
    at a slash never cuts an encoding in two. *)
Theorem getBucketFromPath_valid_utf8 (path b : string) :
  utf8.ValidString path = true →
  getBucketFromPath path = Ok b →
  utf8.ValidString b = true.
Proof.
  intros Hpath. rewrite getBucketFromPath_refines. intros [= <-].
  unfold bucketFromPath.
  apply (valid_takeUntilSlash_le (String.length (dropLeadingSlashes path)));
    [lia|].
  by apply valid_dropLeadingSlashes.
Qed.

Lemma getBucketFromPath_valid_utf8_witness :
  (utf8.ValidString "/café/menu" = true
   ∧ getBucketFromPath "/café/menu" = Ok "café"%string)
  ∧ utf8.ValidString "café" = true.
Proof.
  split; [split; reflexivity|].
  apply (getBucketFromPath_valid_utf8 "/café/menu" "café");
    reflexivity.
Defined.

(** X22. With its three labels, [setAvgLatency] returns normally exactly
    when the record's endpoint, the method and the bucket of the path are
    all valid UTF-8; otherwise [WithLabelValues] panics. A request path
    such as [/%FF/x], whose bucket is the single byte 255, makes it
    panic. *)
Theorem setAvgLatency_returns_iff (vec : SummaryVec) (s : ConnStats) (mn : Z)
  (method path bucket : string) :
  length (labelNames vec) = 3%nat →
  getBucketFromPath path = Ok bucket →
  ((∃ vec', setAvgLatency vec s mn method path = Ok vec')
   ↔ utf8.ValidString (endpoint s) = true
     ∧ utf8.ValidString method = true
     ∧ utf8.ValidString bucket = true)
  ∧ (utf8.ValidString (endpoint s) && utf8.ValidString method
       && utf8.ValidString bucket = false →
     setAvgLatency vec s mn method path = Panic InvalidLabelValue).
Proof.
  intros Hlen Hbucket.
  rewrite getBucketFromPath_refines in Hbucket. injection Hbucket as <-.
  split; [split|].
  - intros [vec' Hok].
    destruct (utf8.ValidString (endpoint s) && utf8.ValidString method
                && utf8.ValidString (bucketFromPath path)) eqn:Hv.
    + by apply andb_true_iff in Hv as [[? ?]%andb_true_iff ?].
    + rewrite setAvgLatency_invalid in Hok by done. discriminate.
  - intros (He & Hm & Hb). eexists. by apply setAvgLatency_spec.
  - intros Hbad. by apply setAvgLatency_invalid.
Qed.

Lemma setAvgLatency_returns_iff_witness :
  (length (labelNames latencyMetric_init) = 3%nat
   ∧ getBucketFromPath badPath = Ok (String (ascii_of_N 255) EmptyString))
  ∧ setAvgLatency latencyMetric_init statsSeven404 5 "GET" badPath
    = Panic InvalidLabelValue.
Proof.
  split; [split; reflexivity|].
  destruct (setAvgLatency_returns_iff latencyMetric_init statsSeven404 5 "GET"
              badPath (String (ascii_of_N 255) EmptyString) eq_refl eq_refl)
    as [_ Hpanic].
  apply Hpanic. reflexivity.
Defined.

(** X23. [Collect] returns normally exactly when the endpoint of every
    non-nil entry of the registry is valid UTF-8; otherwise
    [MustNewConstMetric] panics on the first record whose endpoint is
    not. *)
Theorem Collect_returns_iff (ch : chan) (reg : list (option ConnStats)) :
  ((∃ out, Collect ch reg = Ok out) ↔ Forall valid_endpoint reg)
  ∧ (¬ Forall valid_endpoint reg → Collect ch reg = Panic InvalidLabelValue).
Proof.
  split; [split|].
  - intros [out Hout]. by apply Collect_Ok_inv in Hout as [? _].
  - intros Hvalid. eexists. by apply Collect_spec.
  - intros Hbad. rewrite Collect_cases.
    destruct (forallb valid_endpointb reg) eqn:Hv; [|done].
    by apply forallb_valid in Hv.
Qed.

Lemma Collect_returns_iff_witness :
  ¬ Forall valid_endpoint [Some statsSeven404; None; Some statsBad404]
  ∧ Collect [] [Some statsSeven404; None; Some statsBad404]
    = Panic InvalidLabelValue.
Proof.
  assert (H : ¬ Forall valid_endpoint [Some statsSeven404; None; Some statsBad404]).
  { intros Hv%forallb_valid. discriminate Hv. }
  split; [exact H|].
  destruct (Collect_returns_iff [] [Some statsSeven404; None; Some statsBad404])
    as [_ Hpanic].
  exact (Hpanic H).
Defined.
